(** * pyrolite.geochem.transform: a shallow embedding and its properties

    The module converts, aggregates and summarises tabular geochemical
    data held in pandas dataframes.  This development embeds

    - the cell arithmetic of numpy (finite values, the two infinities and
      the not-a-number marker), exact on finite values;
    - dataframes as ordered lists of named columns;
    - [oxide_conversion], [to_molecular], [to_weight], [elemental_sum],
      [aggregate_element], [recalculate_Fe], [add_ratio], [add_MgNo],
      [lambda_lnREE] and [convert_chemistry] of [transform.py];
    - the object identity of dataframes (a store of tables addressed by
      location), for the functions that write into the table they are
      handed.

    Arithmetic on finite values is exact rational arithmetic: rounding
    and overflow of binary64 are not modelled, and neither are signed
    zeros.  Equalities between cells are stated up to [feq], which is
    [Qeq] on finite values. *)

From Stdlib Require Import QArith Qabs Lqa Lia Ascii String DecimalString.
From stdpp Require Import base list strings.

Open Scope Q_scope.

(** ** numpy cells *)

Module Cell.

Inductive fval : Type :=
| Fin (q : Q)
| PInf
| NInf
| NaN.

Definition Qlt_bool (x y : Q) : bool := negb (Qle_bool y x).

Definition isfinite (v : fval) : bool :=
  match v with Fin _ => true | _ => false end.

Definition isnull (v : fval) : bool :=
  match v with NaN => true | _ => false end.

(** [v < 0.0], false on NaN. *)
Definition ltz (v : fval) : bool :=
  match v with
  | Fin q => Qlt_bool q 0
  | NInf => true
  | PInf | NaN => false
  end.

(** [v <= 0.0], false on NaN. *)
Definition lez (v : fval) : bool :=
  match v with
  | Fin q => Qle_bool q 0
  | NInf => true
  | PInf | NaN => false
  end.

(** [v == 0.0], false on NaN. *)
Definition eqz (v : fval) : bool :=
  match v with
  | Fin q => Qeq_bool q 0
  | _ => false
  end.

Definition fneg (v : fval) : fval :=
  match v with
  | Fin q => Fin (- q)
  | PInf => NInf
  | NInf => PInf
  | NaN => NaN
  end.

(** The infinity with the sign of [q]; NaN for zero (inf * 0). *)
Definition inf_signed (q : Q) : fval :=
  if Qlt_bool 0 q then PInf else if Qlt_bool q 0 then NInf else NaN.

Definition fadd (a b : fval) : fval :=
  match a, b with
  | NaN, _ | _, NaN => NaN
  | Fin x, Fin y => Fin (x + y)
  | PInf, NInf | NInf, PInf => NaN
  | PInf, _ | _, PInf => PInf
  | NInf, _ | _, NInf => NInf
  end.

Definition fmul (a b : fval) : fval :=
  match a, b with
  | NaN, _ | _, NaN => NaN
  | Fin x, Fin y => Fin (x * y)
  | Fin x, PInf | PInf, Fin x => inf_signed x
  | Fin x, NInf | NInf, Fin x => fneg (inf_signed x)
  | PInf, PInf | NInf, NInf => PInf
  | PInf, NInf | NInf, PInf => NInf
  end.

(** numpy division: a finite non-zero value over zero is an infinity,
    zero over zero is NaN, nothing raises. *)
Definition fdiv (a b : fval) : fval :=
  match a, b with
  | NaN, _ | _, NaN => NaN
  | Fin x, Fin y => if Qeq_bool y 0 then inf_signed x else Fin (x / y)
  | Fin _, (PInf | NInf) => Fin 0
  | (PInf | NInf), (PInf | NInf) => NaN
  | PInf, Fin y => if Qlt_bool y 0 then NInf else PInf
  | NInf, Fin y => if Qlt_bool y 0 then PInf else NInf
  end.

(** Equality of cells up to [Qeq]; two nulls are the same cell. *)
Definition feq (a b : fval) : Prop :=
  match a, b with
  | Fin x, Fin y => x == y
  | PInf, PInf | NInf, NInf | NaN, NaN => True
  | _, _ => False
  end.

Definition feqb (a b : fval) : bool :=
  match a, b with
  | Fin x, Fin y => Qeq_bool x y
  | PInf, PInf | NInf, NInf | NaN, NaN => true
  | _, _ => false
  end.

End Cell.
Export Cell.

Infix "=f=" := feq (at level 70, no associativity).

(** Columns and whole tables are compared cell by cell. *)
Definition column_eq (xs ys : list fval) : Prop := Forall2 feq xs ys.

(** ** Exceptions and fallible results *)

Inductive exn : Type :=
| FormulaParseError (s : string)      (* periodictable cannot read the name *)
| IncompatibleCompounds (in_els out_els : list string)
                                      (* ValueError of [oxide_conversion] *)
| ZeroDivisionError                   (* Python scalar division by zero *)
| IndexError                          (* [xs[0]] on an empty list *)
| AssertionError                      (* a bare [assert] *)
| ColumnsNotAttained (remaining : list string)
                                      (* the assert closing [convert_chemistry] *)
| NotImplementedError (msg : string)
| KeyError (k : string)
| TypeError (msg : string)
| ValueError (msg : string).

Inductive res (A : Type) : Type :=
| Ok (a : A)
| Err (e : exn).
Arguments Ok {A} a.
Arguments Err {A} e.

Definition rbind {A B : Type} (m : res A) (k : A -> res B) : res B :=
  match m with
  | Ok a => k a
  | Err e => Err e
  end.

Notation "x <-- m ;; k" := (rbind m (fun x => k))
  (at level 100, m at level 99, right associativity).

(** A Python loop that calls a fallible function on every element and
    stops at the first exception. *)
Fixpoint mapM {A B : Type} (f : A -> res B) (xs : list A) : res (list B) :=
  match xs with
  | [] => Ok []
  | x :: xs' => y <-- f x ;; ys <-- mapM f xs' ;; Ok (y :: ys)
  end.

Definition is_ok {A : Type} (m : res A) : bool :=
  match m with Ok _ => true | Err _ => false end.

(** ** Strings *)

Module Text.

Definition endswith (s suffix : string) : bool :=
  let n := String.length s in
  let m := String.length suffix in
  (m <=? n)%nat && String.eqb (String.substring (n - m) m s) suffix.

(** [sub in s]: substring containment. *)
Definition contains (sub s : string) : bool :=
  match String.index 0 sub s with Some _ => true | None => false end.

Definition lower_ascii (c : ascii) : ascii :=
  let n := nat_of_ascii c in
  if ((65 <=? n) && (n <=? 90))%nat then ascii_of_nat (n + 32) else c.

Fixpoint lower (s : string) : string :=
  match s with
  | EmptyString => EmptyString
  | String c s' => String (lower_ascii c) (lower s')
  end.

(** [s.replace("_n", "")]. *)
Fixpoint replace_n (s : string) : string :=
  match s with
  | EmptyString => EmptyString
  | String c s' =>
      match c, s' with
      | "_"%char, String "n"%char rest => replace_n rest
      | _, _ => String c (replace_n s')
      end
  end.

(** [s.split(sep)] for a one-character separator. *)
Fixpoint split_on (sep : ascii) (s : string) : list string :=
  match s with
  | EmptyString => [EmptyString]
  | String c s' =>
      if Ascii.eqb c sep then EmptyString :: split_on sep s'
      else match split_on sep s' with
           | [] => [String c EmptyString]
           | w :: ws => String c w :: ws
           end
  end.

(** Modelled from the spec: [remove_suffix] of pyrolite.util.text, which is
    not among the sources; "stripping any total suffix" from a component
    name: the suffix is cut when the name ends with it. *)
Definition remove_suffix (z suffix : string) : string :=
  if endswith z suffix
  then String.substring 0 (String.length z - String.length suffix) z
  else z.

(** Python's [", ".join(xs)]. *)
Fixpoint join (sep : string) (xs : list string) : string :=
  match xs with
  | [] => EmptyString
  | [x] => x
  | x :: xs' => x +:+ sep +:+ join sep xs'
  end.

End Text.
Export Text.

(** Membership of a name in a list of names ([x in xs]). *)
Definition mem (x : string) (xs : list string) : bool :=
  existsb (String.eqb x) xs.

(** [list(set(xs))]: duplicates removed.  Python leaves the order of a set
    unspecified; the embedding keeps first occurrences in order. *)
Fixpoint dedup_names (xs : list string) : list string :=
  match xs with
  | [] => []
  | x :: xs' => x :: List.filter (fun y => negb (String.eqb x y)) (dedup_names xs')
  end.

(** ** The external collaborators

    [transform.py] leans on periodictable (formula parsing and molecular
    mass), on the classification tables of [pyrolite.geochem.ind], on the
    reference compositions of [pyrolite.geochem.norm], on the orthogonal
    polynomial routines of [pyrolite.util.math] and on numpy's [exp] and
    [log].  None of them is part of the sources; they are gathered in one
    record, and every function below takes it as its first argument. *)

Record Formula : Type := {
  atoms : list (string * Q);   (* element symbol and its count, in order *)
  mass : Q                     (* molecular weight *)
}.

Record RefComp : Type := {
  ref_value : string -> option fval   (* [norm[el].value]; None is a KeyError *)
}.

Record Env : Type := {
  pt_formula : string -> option Formula;           (* None: parse error *)
  simple_oxides : string -> list string;
  common_elements : list string;                   (* __common_elements__ *)
  common_oxides : list string;                     (* __common_oxides__ *)
  REE : list string;
  get_ionic_radii : list string -> res (list Q);   (* coordination 8, charge 3 *)
  np_exp : fval -> fval;
  np_log : fval -> fval;
  titlecase : string -> string;
  get_reference_composition : string -> res RefComp;
  set_units : RefComp -> string -> RefComp;
  OP_constants : list Q -> nat -> list (list Q);
  lambdas : list fval -> list Q -> list (list Q) -> nat -> res (list fval)
}.

(** What periodictable guarantees of a formula it has parsed from a name
    that holds at least one atom: counts and mass are positive. *)
Definition wf_formula (f : Formula) : Prop :=
  Forall (fun kv => 0 < snd kv) (atoms f) /\ 0 < mass f.

(** ** Dataframes *)

Module Frame.

Record Series : Type := {
  name : string;
  values : list fval
}.

(** [index_size] rows; the columns in order, each with its cells. *)
Record DataFrame : Type := {
  index_size : nat;
  columns : list (string * list fval)
}.

Definition col_names (df : DataFrame) : list string := map fst (columns df).

Definition has_col (df : DataFrame) (c : string) : bool := mem c (col_names df).

Fixpoint assoc {A : Type} (k : string) (l : list (string * A)) : option A :=
  match l with
  | [] => None
  | (k', v) :: l' => if String.eqb k k' then Some v else assoc k l'
  end.

Definition get_col (df : DataFrame) (c : string) : option (list fval) :=
  assoc c (columns df).

(** [df[c] = v]: overwrite the column in place, or append a new one. *)
Fixpoint set_assoc {A : Type} (k : string) (v : A) (l : list (string * A))
  : list (string * A) :=
  match l with
  | [] => [(k, v)]
  | (k', v') :: l' =>
      if String.eqb k k' then (k, v) :: l' else (k', v') :: set_assoc k v l'
  end.

Definition set_col (df : DataFrame) (c : string) (v : list fval) : DataFrame :=
  {| index_size := index_size df; columns := set_assoc c v (columns df) |}.

(** [df.drop(columns=names)]. *)
Definition drop_cols (df : DataFrame) (names : list string) : DataFrame :=
  {| index_size := index_size df;
     columns := List.filter (fun kv => negb (mem (fst kv) names)) (columns df) |}.

(** [df.loc[:, names]]: a new table; a missing name is a KeyError. *)
Definition loc_cols (df : DataFrame) (names : list string) : res DataFrame :=
  cols <-- mapM (fun c => match get_col df c with
                          | Some v => Ok (c, v)
                          | None => Err (KeyError c)
                          end) names ;;
  Ok {| index_size := index_size df; columns := cols |}.

(** Cell-wise map over a table ([applymap]). *)
Definition applymap (f : fval -> fval) (df : DataFrame) : DataFrame :=
  {| index_size := index_size df;
     columns := map (fun kv => (fst kv, map f (snd kv))) (columns df) |}.

(** The cells of row [r], in column order. *)
Definition row (df : DataFrame) (r : nat) : list fval :=
  map (fun kv => nth r (snd kv) NaN) (columns df).

(** Every column has one cell per row. *)
Definition wf_frame (df : DataFrame) : Prop :=
  Forall (fun kv => length (snd kv) = index_size df) (columns df).

(** [sum(axis=1)] of pandas: nulls are skipped, a row without any value
    sums to zero. *)
Definition skipna (v : fval) : fval := if isnull v then Fin 0 else v.

Definition sum_axis1 (n : nat) (cols : list (list fval)) : list fval :=
  fold_left (fun acc col => zip_with fadd acc (map skipna col)) cols
            (repeat (Fin 0) n).

(** Tables equal up to [feq] on their cells. *)
Definition frame_eq (a b : DataFrame) : Prop :=
  index_size a = index_size b /\
  Forall2 (fun x y => fst x = fst y /\ column_eq (snd x) (snd y))
          (columns a) (columns b).

End Frame.
Export Frame.

(** ** Conversion factors *)

Section Conversion.

Context (E : Env).

Definition resolve (s : string) : res Formula :=
  match pt_formula E s with
  | Some f => Ok f
  | None => Err (FormulaParseError s)
  end.

Definition non_oxygen (a : list (string * Q)) : list (string * Q) :=
  List.filter (fun kv => negb (String.eqb (fst kv) "O")) a.

(** Equality of two [dict.keys()] views: the same set of keys. *)
Definition same_keys (a b : list string) : bool :=
  forallb (fun k => mem k b) a && forallb (fun k => mem k a) b.

(** The closure returned by [oxide_conversion]: what [convert_series]
    captures. *)
Record converter : Type := {
  oxin : Formula;
  oxout : Formula;
  cation_coefficient : Q;
  molecular_flag : bool
}.

Definition oxide_conversion (oxin_name oxout_name : string) (molecular : bool)
  : res converter :=
  fin <-- resolve oxin_name ;;
  fout <-- resolve oxout_name ;;
  let inatoms := non_oxygen (atoms fin) in
  let outatoms := non_oxygen (atoms fout) in
  let in_els := map fst inatoms in
  let out_els := map fst outatoms in
  if (length in_els =? length out_els)%nat && (length in_els =? 1)%nat
     && same_keys in_els out_els
  then
    match inatoms, outatoms with
    | (_, a) :: _, (_, b) :: _ =>
        if Qeq_bool b 0 then Err ZeroDivisionError
        else Ok {| oxin := fin; oxout := fout;
                   cation_coefficient := a / b;
                   molecular_flag := molecular |}
    | _, _ => Err IndexError
    end
  else Err (IncompatibleCompounds in_els out_els).

(** The local [factor] of [convert_series]; masses are Python floats, so
    a zero mass raises. *)
Definition factor (c : converter) : res Q :=
  if molecular_flag c then Ok (cation_coefficient c)
  else if Qeq_bool (mass (oxin c)) 0 then Err ZeroDivisionError
  else Ok (cation_coefficient c * mass (oxout c) / mass (oxin c)).

Definition convert_series (c : converter) (x : fval) : res fval :=
  f <-- factor c ;;
  Ok (fmul x (Fin f)).

(** [ser.apply(oxide_conversion(a, b, molecular))]: the converter is built
    first, then called on every cell. *)
Definition apply_conversion (a b : string) (molecular : bool) (ser : list fval)
  : res (list fval) :=
  c <-- oxide_conversion a b molecular ;;
  mapM (convert_series c) ser.

(** ** Mass and molar bases *)

(** Modelled from the spec: [renormalise] of pyrolite.comp.codata, which is
    not among the sources; closure, "rescaling a row's compositional values
    so they sum to a constant".  The spec fixes neither the constant nor
    what becomes of a row whose total is zero: this model closes the table
    it is given to 100 and leaves such a row as it is.  No property below
    depends on the cells it computes. *)
Definition renormalise (df : DataFrame) : DataFrame :=
  let sums := sum_axis1 (index_size df) (map snd (columns df)) in
  let divisor := map (fun s => if eqz s then Fin 100 else s) sums in
  {| index_size := index_size df;
     columns := map (fun kv =>
                       (fst kv,
                        zip_with (fun v d => fmul (fdiv v d) (Fin 100))
                                 (snd kv) divisor))
                    (columns df) |}.

(** [MWs = [pt.formula(c).mass for c in df.columns]]. *)
Definition molecular_weights (df : DataFrame) : res (list Q) :=
  mapM (fun c => f <-- resolve c ;; Ok (mass f)) (col_names df).

(** [df.div(MWs)] and [df.multiply(MWs)]: column [i] by [MWs[i]]. *)
Definition div_columns (df : DataFrame) (ws : list Q) : DataFrame :=
  {| index_size := index_size df;
     columns := zip_with (fun kv w => (fst kv, map (fun v => fdiv v (Fin w)) (snd kv)))
                         (columns df) ws |}.

Definition mul_columns (df : DataFrame) (ws : list Q) : DataFrame :=
  {| index_size := index_size df;
     columns := zip_with (fun kv w => (fst kv, map (fun v => fmul v (Fin w)) (snd kv)))
                         (columns df) ws |}.

Definition to_molecular (df : DataFrame) (renorm : bool) : res DataFrame :=
  MWs <-- molecular_weights df ;;
  if renorm then Ok (renormalise (div_columns df MWs))
  else Ok (div_columns df MWs).

Definition to_weight (df : DataFrame) (renorm : bool) : res DataFrame :=
  MWs <-- molecular_weights df ;;
  if renorm then Ok (renormalise (mul_columns df MWs))
  else Ok (mul_columns df MWs).

End Conversion.

(** ** Aggregation of a cation *)

Section Aggregation.

Context (E : Env).

(** What [elemental_sum] accepts as [component]: one name, or a list, a
    tuple or a dict, of which only the names (the keys) are read. *)
Inductive component : Type :=
| CName (s : string)
| CList (l : list string).

(** What [aggregate_element] accepts as [to]. *)
Inductive target : Type :=
| TStr (s : string)
| TFormula (s : string)                 (* an Element or Formula; [s] is its [str] *)
| TDict (d : list (string * fval))      (* target names and proportions *)
| TSeq (l : list string).               (* a list or a tuple *)

Definition first {A : Type} (l : list A) : res A :=
  match l with
  | [] => Err IndexError
  | x :: _ => Ok x
  end.

(** Modelled from the spec: [get_cations] of pyrolite.geochem.ind, which is
    not among the sources; "the underlying element identity extracted from
    a component name after stripping any total suffix and resolving the
    compound to its non-oxygen atom(s)". *)
Definition get_cations (oxide total_suffix : string) : res (list string) :=
  f <-- resolve E (remove_suffix oxide total_suffix) ;;
  Ok (map fst (non_oxygen (atoms f))).

Definition resolve_cation (c : option component) (total_suffix : string)
  : res string :=
  match c with
  | None => Err AssertionError
  | Some (CList l) =>
      cations <-- mapM (fun t => cs <-- get_cations t total_suffix ;; first cs) l ;;
      match cations with
      | [] => Err IndexError
      | c0 :: _ =>
          if forallb (fun c => String.eqb c c0) cations then Ok c0
          else Err AssertionError
      end
  | Some (CName s) => cs <-- get_cations s total_suffix ;; first cs
  end.

Definition poss_specs (cationname total_suffix : string) : list string :=
  let base := cationname :: simple_oxides E cationname in
  base ++ map (fun i => i +:+ total_suffix) base.

(** The candidate species: the possible forms that are columns of [df]. *)
Definition candidate_species (df : DataFrame) (cationname total_suffix : string)
  : list string :=
  List.filter (has_col df) (dedup_names (poss_specs cationname total_suffix)).

(** The mask [(~isfinite) | (< 0.0)] and the value written under it. *)
Definition zero_invalid (v : fval) : fval :=
  if negb (isfinite v) || ltz v then Fin 0 else v.

(** [subsum[subsum <= 0.0] = nan]. *)
Definition null_nonpositive (v : fval) : fval :=
  if lez v then NaN else v.

(** The loop [for s in species: subdf[s] = subdf[s].apply(...)]. *)
Definition convert_candidates (cols : list (string * list fval))
  (cationname total_suffix : string) (molecular : bool)
  : res (list (string * list fval)) :=
  mapM (fun kv =>
          col <-- apply_conversion E (remove_suffix (fst kv) total_suffix)
                                   cationname molecular (snd kv) ;;
          Ok (fst kv, col)) cols.

Definition elemental_sum (df : DataFrame) (c : option component)
  (to : option string) (total_suffix : string) (logdata molecular : bool)
  : res Series :=
  cationname <-- resolve_cation c total_suffix ;;
  let species := candidate_species df cationname total_suffix in
  subsum <--
    match species with
    | [] => Ok (repeat NaN (index_size df))
    | _ :: _ =>
        subdf <-- loc_cols df species ;;
        let subdf := if logdata then applymap (np_exp E) subdf else subdf in
        converted <-- convert_candidates (columns subdf) cationname
                                         total_suffix molecular ;;
        let zeroed := map (fun kv => map zero_invalid (snd kv)) converted in
        Ok (map null_nonpositive (sum_axis1 (index_size df) zeroed))
    end ;;
  match to with
  | None => Ok {| name := cationname; values := subsum |}
  | Some t =>
      vals <-- apply_conversion E cationname t molecular subsum ;;
      Ok {| name := t; values := vals |}
  end.

(** Modelled from the spec: [close] of pyrolite.comp.codata, which is not
    among the sources; "proportions = values renormalized to sum 1
    (closure)": every value divided by their sum. *)
Definition close (xs : list fval) : list fval :=
  let total := fold_left fadd xs (Fin 0) in
  map (fun x => fdiv x total) xs.

Definition target_component (to : target) : component :=
  match to with
  | TStr s | TFormula s => CName s
  | TDict d => CList (map fst d)
  | TSeq l => CList l
  end.

(** The branch on the type of [to]: target names, proportions, one
    coefficient per target, and the columns to drop. *)
Definition speciation (to : target) (cation total_suffix : string)
  (molecular : bool) (species : list string)
  : res (list string * list fval * list fval * list string) :=
  match to with
  | TStr s =>
      let toform := remove_suffix s total_suffix in
      c <-- oxide_conversion E cation toform molecular ;;
      k <-- convert_series c (Fin 1) ;;
      Ok ([s], [Fin 1], [k],
          List.filter (fun i => negb (String.eqb i s)) species)
  | TFormula s =>
      c <-- oxide_conversion E cation s molecular ;;
      k <-- convert_series c (Fin 1) ;;
      Ok ([s], [Fin 1], [k],
          List.filter (fun i => negb (String.eqb i s)) species)
  | TDict d =>
      let targetnames := map fst d in
      let props := close (map snd d) in
      coeff <-- mapM (fun tp =>
                        c <-- oxide_conversion E cation (fst tp) molecular ;;
                        convert_series c (snd tp))
                     (zip targetnames props) ;;
      Ok (targetnames, props, coeff,
          List.filter (fun i => negb (mem i targetnames)) species)
  | TSeq _ =>
      Err (NotImplementedError "Not yet implemented for tuples, lists, arrays etc.")
  end.

Definition ensure_col (df : DataFrame) (t : string) : DataFrame :=
  if has_col df t then df else set_col df t (repeat NaN (index_size df)).

(** [_df.loc[:, targetnames] = subsum[:, newaxis] @ coeff[newaxis, :]]:
    target [j] receives the aggregate times coefficient [j]. *)
Definition assign_outer (df : DataFrame) (targetnames : list string)
  (subsum coeff : list fval) : DataFrame :=
  fold_left (fun d tc => set_col d (fst tc) (map (fun s => fmul s (snd tc)) subsum))
            (zip targetnames coeff) df.

Definition map_cols (f : fval -> fval) (names : list string) (df : DataFrame)
  : DataFrame :=
  {| index_size := index_size df;
     columns := map (fun kv => if mem (fst kv) names
                               then (fst kv, map f (snd kv)) else kv)
                    (columns df) |}.

(** [df[targetnames] = _df.loc[:, targetnames]], column by column. *)
Definition copy_cols (src : DataFrame) (names : list string) (dst : DataFrame)
  : DataFrame :=
  fold_left (fun d t => set_col d t (default [] (get_col src t))) names dst.

(** The table computed by [aggregate_element] before renormalisation,
    together with the list [drop] of redundant columns. *)
Definition aggregate_element_table (df : DataFrame) (to : target)
  (total_suffix : string) (logdata molecular : bool)
  : res (list string * DataFrame) :=
  subsum <-- elemental_sum df (Some (target_component to)) None
                           total_suffix logdata molecular ;;
  let cation := name subsum in
  let species := simple_oxides E cation in
  let species := species ++ map (fun i => i +:+ total_suffix) species in
  let species := List.filter (has_col df) species in
  sp <-- speciation to cation total_suffix molecular species ;;
  match sp with
  | (targetnames, props, coeff, drop) =>
      let df' := match drop with [] => df | _ :: _ => drop_cols df drop end in
      let _df := fold_left ensure_col targetnames df in
      let _df := assign_outer _df targetnames (values subsum) coeff in
      let _df := if logdata then map_cols (np_log E) targetnames _df else _df in
      Ok (drop, copy_cols _df targetnames df')
  end.

End Aggregation.

(** ** Dataframe objects

    A pandas dataframe is a mutable object, and [df[name] = column] writes
    into the object the caller holds.  The store keeps every table alive in
    a call; a location is an index into it, a new table is appended.  A
    computation returns its outcome and the store it leaves, also when it
    raises. *)

Module Store.

Abbreviation loc := nat (only parsing).
Abbreviation store := (list DataFrame) (only parsing).

Definition M (A : Type) : Type := store -> res A * store.

Definition ret {A : Type} (a : A) : M A := fun h => (Ok a, h).

Definition raise {A : Type} (e : exn) : M A := fun h => (Err e, h).

Definition bind {A B : Type} (m : M A) (k : A -> M B) : M B :=
  fun h => match m h with
           | (Ok a, h') => k a h'
           | (Err e, h') => (Err e, h')
           end.

Definition lift {A : Type} (r : res A) : M A := fun h => (r, h).

Definition read (l : loc) : M DataFrame :=
  fun h => match h !! l with
           | Some df => (Ok df, h)
           | None => (Err (TypeError "not a dataframe"), h)
           end.

Definition write (l : loc) (df : DataFrame) : M unit :=
  fun h => (Ok tt, <[l := df]> h).

Definition alloc (df : DataFrame) : M loc :=
  fun h => (Ok (length h), h ++ [df]).

End Store.
Export Store.

Notation "x <~ m ;; k" := (bind m (fun x => k))
  (at level 100, m at level 99, right associativity).

(** The table a computation returns, read from the store it leaves. *)
Definition returned_table (m : M loc) (h : store) : res DataFrame :=
  match m h with
  | (Ok l, h') => match h' !! l with
                  | Some df => Ok df
                  | None => Err (TypeError "not a dataframe")
                  end
  | (Err e, _) => Err e
  end.

Section Operations.

Context (E : Env).

(** [aggregate_element]: the target columns are written into [df]; [df] is
    the table of the caller unless redundant columns were dropped, which
    rebinds it to a new table. *)
Definition aggregate_element (df : loc) (to : target) (total_suffix : string)
  (logdata renorm molecular : bool) : M loc :=
  t <~ read df ;;
  r <~ lift (aggregate_element_table E t to total_suffix logdata molecular) ;;
  df' <~ match fst r with
         | [] => _ <~ write df (snd r) ;; ret df
         | _ :: _ => alloc (snd r)
         end ;;
  if renorm then alloc (renormalise (snd r)) else ret df'.

Definition recalculate_Fe (df : loc) (to : target) (renorm : bool)
  (total_suffix : string) (logdata molecular : bool) : M loc :=
  aggregate_element df to total_suffix logdata renorm molecular.

(** *** Ratios *)

(** What [add_ratio] accepts as [norm_to]. *)
Inductive norm_arg : Type :=
| NormNone
| NormName (s : string)
| NormRef (r : RefComp)
| NormSeq (l : list fval)      (* a list, a tuple, an index ... *)
| NormOther.

Definition ref_lookup (norm : RefComp) (el : string) : res fval :=
  match ref_value norm el with
  | Some v => Ok v
  | None => Err (KeyError el)
  end.

Definition ref_pair (norm : RefComp) (num den : string) : res (fval * fval) :=
  n <-- ref_lookup norm num ;;
  d <-- ref_lookup norm den ;;
  Ok (n, d).

(** The reference values [num_n, den_n] that [add_ratio] resolves. *)
Definition resolve_norm (norm_to : norm_arg) (num den : string)
  : res (fval * fval) :=
  match norm_to with
  | NormName s =>
      norm <-- get_reference_composition E s ;;
      ref_pair norm num den
  | NormRef r => ref_pair r num den
  | NormSeq [n; d] => Ok (n, d)
  | NormSeq _ => Err (ValueError "wrong number of values to unpack")
  | NormNone | NormOther =>
      norm <-- get_reference_composition E "Chondrite_PON" ;;
      ref_pair norm num den
  end.

Definition is_norm_none (n : norm_arg) : bool :=
  match n with NormNone => true | _ => false end.

Definition finite_or_null (v : fval) : fval :=
  if isfinite v then v else NaN.

(** The table [add_ratio] leaves in [df]. *)
Definition add_ratio_table (df : DataFrame) (ratio : string)
  (alias : option string) (norm_to : norm_arg) (molecular : bool)
  : res DataFrame :=
  match split_on "/" ratio with
  | [num; den] =>
      let to_norm := endswith (lower den) "_n" in
      let den := if to_norm then titlecase E (replace_n (lower den)) else den in
      _ <-- (if to_norm || negb (is_norm_none norm_to)
             then resolve_norm norm_to num den
             else Ok (NaN, NaN)) ;;
      let name := match alias with
                  | None | Some EmptyString => ratio
                  | Some a => a
                  end in
      numsum <-- elemental_sum E df (Some (CName num)) (Some num) "T" false molecular ;;
      densum <-- elemental_sum E df (Some (CName den)) (Some den) "T" false molecular ;;
      let ratio := zip_with fdiv (values numsum) (values densum) in
      Ok (set_col df name (map finite_or_null ratio))
  | _ => Err (ValueError "wrong number of values to unpack")
  end.

Definition add_ratio (df : loc) (ratio : string) (alias : option string)
  (norm_to : norm_arg) (molecular : bool) : M loc :=
  t <~ read df ;;
  t' <~ lift (add_ratio_table t ratio alias norm_to molecular) ;;
  _ <~ write df t' ;;
  ret df.

(** *** Magnesium number *)

Definition to_frame (s : Series) (n : nat) : DataFrame :=
  {| index_size := n; columns := [(name s, values s)] |}.

Definition frame_values (df : DataFrame) : list fval :=
  match columns df with
  | [(_, v)] => v
  | _ => []
  end.

(** The table [add_MgNo] leaves in [df].  With [use_total_approx] the call
    [aggregate_element(df, "Fe", to=speciation, ...)] binds [to] twice. *)
Definition add_MgNo_table (df : DataFrame) (molecular use_total_approx : bool)
  (approx_Fe203_frac : fval) (name : string) : res DataFrame :=
  mg <-- elemental_sum E df (Some (CName "Mg")) None "T" false molecular ;;
  fe <-- (if use_total_approx
          then Err (TypeError "aggregate_element() got multiple values for argument 'to'")
          else
            let keep := List.filter (fun i => negb (contains "Fe2O3" i))
                                    (col_names df) in
            sub <-- loc_cols df keep ;;
            elemental_sum E sub (Some (CName "Fe")) None "T" false molecular) ;;
  mgfe <-- (if negb molecular
            then
              mgm <-- to_molecular E (to_frame mg (index_size df)) false ;;
              fem <-- to_molecular E (to_frame fe (index_size df)) false ;;
              Ok (frame_values mgm, frame_values fem)
            else Ok (values mg, values fe)) ;;
  let mgnos := zip_with (fun m f => fdiv m (fadd m f)) (fst mgfe) (snd mgfe) in
  match mgnos with
  | [] => Ok (set_col df name (repeat NaN (index_size df)))
  | _ :: _ => Ok (set_col df name mgnos)
  end.

Definition add_MgNo (df : loc) (molecular use_total_approx : bool)
  (approx_Fe203_frac : fval) (name : string) : M loc :=
  t <~ read df ;;
  t' <~ lift (add_MgNo_table t molecular use_total_approx approx_Fe203_frac name) ;;
  _ <~ write df t' ;;
  ret df.

End Operations.

(** ** Lambda coefficients of rare-earth patterns *)

Section Lambdas.

Context (E : Env).

(** Cells of the coefficient table, which numpy holds as Python objects:
    numbers, and the closures made by [lambda_poly_func], each of which
    captures the coefficients of its row. *)
Inductive obj : Type :=
| ONum (v : fval)
| OFunc (lam : list fval).

Definition is_callable (o : obj) : bool :=
  match o with OFunc _ => true | ONum _ => false end.

Record ObjFrame : Type := {
  o_index_size : nat;
  o_columns : list (string * list obj)
}.

(** [pd.to_numeric(.., errors="coerce")] on one cell. *)
Definition to_numeric (o : obj) : obj :=
  match o with
  | ONum v => ONum v
  | OFunc _ => ONum NaN
  end.

(** What [lambda_lnREE] accepts as [norm_to]. *)
Inductive ree_norm : Type :=
| ReeNone                       (* data already normalised *)
| ReeName (s : string)
| ReeRef (r : RefComp)
| ReeSeq (l : list fval).

Definition non_null_cols (df : DataFrame) : list string :=
  map fst (List.filter (fun kv => negb (forallb isnull (snd kv))) (columns df)).

Definition select_ree (df : DataFrame) (exclude : list string) : list string :=
  List.filter (fun i => has_col df i && negb (mem i exclude)
                        && mem i (non_null_cols df))
              (REE E).

(** The rows of a table, each in column order. *)
Definition rows_of (df : DataFrame) : list (list fval) :=
  map (row df) (seq 0 (index_size df)).

Definition norm_abundances (norm_to : ree_norm) (ree : list string)
  (scale : string) : res (option (list fval)) :=
  match norm_to with
  | ReeNone => Ok None
  | ReeName s =>
      norm <-- get_reference_composition E s ;;
      let norm := set_units E norm scale in
      a <-- mapM (ref_lookup norm) ree ;;
      Ok (Some a)
  | ReeRef r =>
      let norm := set_units E r scale in
      a <-- mapM (ref_lookup norm) ree ;;
      Ok (Some a)
  | ReeSeq l =>
      if (length l =? length ree)%nat then Ok (Some l) else Err AssertionError
  end.

(** [np.apply_along_axis(f, 1, arr)]: numpy refuses an array without
    rows. *)
Definition apply_along_axis {A B : Type} (f : list A -> res B)
  (arr : list (list A)) : res (list B) :=
  match arr with
  | [] => Err (ValueError "Cannot apply_along_axis when any iteration dimensions are 0")
  | _ :: _ => mapM f arr
  end.

(** [lambdadf.loc[~null_in_row, labels] = fits]: the fitted rows go to the
    rows that were fitted, the others keep their nulls. *)
Fixpoint scatter (null_in_row : list bool) (fits : list (list fval))
  (blank : list fval) : list (list fval) :=
  match null_in_row with
  | [] => []
  | true :: m => blank :: scatter m fits blank
  | false :: m =>
      match fits with
      | [] => blank :: scatter m [] blank
      | f :: fs => f :: scatter m fs blank
      end
  end.

Definition label (d : nat) : string :=
  "λ" +:+ NilZero.string_of_uint (Nat.to_uint d).

Definition columns_of_rows {A : Type} (labels : list string)
  (rows : list (list A)) (dflt : A) : list (string * list A) :=
  imap (fun j l => (l, map (fun r => nth j r dflt) rows)) labels.

(** The table [lambda_lnREE] returns, as a function of the table it
    reads. *)
Definition lambda_lnREE_table (df : DataFrame) (norm_to : ree_norm)
  (exclude : list string) (params : option (list (list Q))) (degree : nat)
  (append : option (list string)) (scale : string) : res ObjFrame :=
  let ree := select_ree df exclude in
  radii <-- get_ionic_radii E ree ;;
  let params' := match params with
                 | None => OP_constants E radii degree
                 | Some p => p
                 end in
  let degree := match params with None => degree | Some p => length p end in
  sub <-- loc_cols df ree ;;
  let null_in_row := map (existsb isnull) (rows_of sub) in
  let norm_rows := map snd (List.filter (fun br => negb (fst br))
                                        (zip null_in_row (rows_of sub))) in
  let labels := map label (seq 0 degree) in
  abund <-- norm_abundances norm_to ree scale ;;
  let norm_rows := match abund with
                   | None => norm_rows
                   | Some a => map (fun r => zip_with fdiv r a) norm_rows
                   end in
  let norm_rows := map (fun r => if existsb lez r then map (fun _ => NaN) r else r)
                       norm_rows in
  let norm_rows := map (map (np_log E)) norm_rows in
  fits <-- apply_along_axis (fun r => lambdas E r radii params' degree) norm_rows ;;
  if negb (forallb (fun f => (length f =? degree)%nat) fits)
  then Err (ValueError "shape mismatch")
  else
    let blank := repeat NaN degree in
    let lam := scatter null_in_row fits blank in
    let lam := map (fun r => if forallb eqz r then blank else r) lam in
    let cols := columns_of_rows labels (map (map ONum) lam) (ONum NaN) in
    cols <-- (match append with
              | Some a =>
                  if mem "function" a
                  then
                    fs <-- apply_along_axis (fun r => Ok (OFunc r)) lam ;;
                    Ok (cols ++ [("lambda_poly_func", fs)])
                  else Ok cols
              | None => Ok cols
              end) ;;
    Ok {| o_index_size := index_size df;
          o_columns := map (fun kv => (fst kv, map to_numeric (snd kv))) cols |}.

(** [lambda_lnREE] reads [df] and returns a new table. *)
Definition lambda_lnREE (df : loc) (norm_to : ree_norm)
  (exclude : list string) (params : option (list (list Q))) (degree : nat)
  (append : option (list string)) (scale : string) : M ObjFrame :=
  t <~ read df ;;
  lift (lambda_lnREE_table t norm_to exclude params degree append scale).

End Lambdas.

(** ** Conversion of a table to a requested set of columns *)

Section Reconciler.

Context (E : Env).

(** The entries of [to]: column names, ratio strings, and dictionaries of
    coupled species with their proportions. *)
Inductive request : Type :=
| RName (s : string)
| RDict (d : list (string * fval)).

Definition compositional (c : string) : bool :=
  mem c (common_oxides E) || mem c (common_elements E).

Definition coupled_sets (to : list request) : list (list (string * fval)) :=
  flat_map (fun i => match i with RDict d => [d] | RName _ => [] end) to.

Definition coupled_components (to : list request) : list string :=
  flat_map (map fst) (coupled_sets to).

Definition present_comp (df : DataFrame) (to : list request) : list string :=
  List.filter compositional (col_names df) ++ coupled_components to.

Definition noncomp (df : DataFrame) (to : list request) : list string :=
  List.filter (fun i => negb (mem i (present_comp df to))) (col_names df).

(** [[i for i in to if "/" in i and i not in df.columns]]: on a dictionary
    ["/" in i] looks among its keys, and asking an index for a dictionary
    raises. *)
Fixpoint new_ratios (df : DataFrame) (to : list request) : res (list string) :=
  match to with
  | [] => Ok []
  | RName s :: to' =>
      rs <-- new_ratios df to' ;;
      Ok (if contains "/" s && negb (has_col df s) then s :: rs else rs)
  | RDict d :: to' =>
      if mem "/" (map fst d) then Err (TypeError "unhashable type: 'dict'")
      else new_ratios df to'
  end.

Definition get_comp (df : DataFrame) (to : list request) (ratios : list string)
  : list string :=
  flat_map (fun i => match i with
                     | RName s =>
                         if mem s (noncomp df to ++ ratios) then [] else [s]
                     | RDict _ => []
                     end) to.

Definition is_iron (s : string) : bool := contains "Fe" s.

Definition current_fe (df : DataFrame) (to : list request) : list string :=
  List.filter is_iron (present_comp df to).

(** The iron names among the requested columns that are not present. *)
Definition get_fe_names (df : DataFrame) (to : list request)
  (ratios : list string) : list string :=
  List.filter is_iron
    (List.filter (fun i => negb (mem i (present_comp df to)))
                 (get_comp df to ratios)).

(** [agg_present + get_notpresent] once the iron components are taken
    out. *)
Definition aggregate_items (df : DataFrame) (to : list request)
  (ratios : list string) : list string :=
  let gc := get_comp df to ratios in
  let agg_present := List.filter (fun i => mem i (present_comp df to)) gc in
  let get_notpresent := List.filter (fun i => negb (mem i (present_comp df to))) gc in
  dedup_names (List.filter (fun i => negb (mem i (current_fe df to))) agg_present)
  ++ dedup_names (List.filter (fun i => negb (mem i (get_fe_names df to ratios)))
                              get_notpresent).

Definition coupled_fe (to : list request) : list (list (string * fval)) :=
  List.filter (fun s => forallb is_iron (map fst s)) (coupled_sets to).

(** [get_fe] as it stands at the test [len(get_fe) > 1]: the coupled iron
    dictionaries when there is one, else the missing iron names. *)
Definition get_fe (df : DataFrame) (to : list request) (ratios : list string)
  : list target :=
  match coupled_fe to with
  | [] => map TStr (get_fe_names df to ratios)
  | _ :: _ => map TDict (coupled_fe to)
  end.

Fixpoint aggregate_all (items : list string) (df : loc) (logdata molecular : bool)
  : M loc :=
  match items with
  | [] => ret df
  | item :: rest =>
      df' <~ aggregate_element E df (TStr item) "T" logdata false molecular ;;
      aggregate_all rest df' logdata molecular
  end.

Fixpoint add_ratios (rs : list string) (df : loc) (molecular : bool) : M loc :=
  match rs with
  | [] => ret df
  | r :: rest =>
      df' <~ add_ratio E df r None NormNone molecular ;;
      add_ratios rest df' molecular
  end.

Definition multiple_iron_message : string :=
  "Need to specify speciation for >1 Fe components.".

(** The iron redox section. *)
Definition iron_section (fe : list target) (df : loc) (logdata molecular : bool)
  : M loc :=
  if (1 <? length fe)%nat then raise (NotImplementedError multiple_iron_message)
  else match fe with
       | [] => ret df
       | t :: _ => recalculate_Fe E df t false "T" logdata molecular
       end.

(** The last checks, the renormalisation of the compositional columns and
    the selection of the output. *)
Definition finish (df : loc) (gc output_columns : list string) (renorm : bool)
  : M loc :=
  t <~ read df ;;
  match List.filter (fun i => negb (has_col t i)) gc with
  | (_ :: _) as remaining => raise (ColumnsNotAttained remaining)
  | [] =>
      let pc := List.filter compositional (col_names t) in
      t' <~ (if renorm
             then
               sub <~ lift (loc_cols t pc) ;;
               let t' := copy_cols (renormalise sub) pc t in
               _ <~ write df t' ;;
               ret t'
             else ret t) ;;
      out <~ lift (loc_cols t' output_columns) ;;
      alloc out
  end.

Definition convert_chemistry (input_df : loc) (to : list request)
  (logdata renorm molecular : bool) : M loc :=
  t <~ read input_df ;;
  df <~ alloc t ;;
  ratios <~ lift (new_ratios t to) ;;
  let gc := get_comp t to ratios in
  df <~ aggregate_all (aggregate_items t to ratios) df logdata molecular ;;
  df <~ iron_section (get_fe t to ratios) df logdata molecular ;;
  df <~ add_ratios ratios df molecular ;;
  finish df gc (noncomp t to ++ gc ++ coupled_components to ++ ratios) renorm.

End Reconciler.

(** ** A sample of the external tables

    A handful of entries of the periodic table, of the classification
    tables and of one reference composition, for evaluating the functions
    above on concrete tables. *)

Module Sample.

Definition formula_table : list (string * Formula) :=
  [ ("O",     {| atoms := [("O", 1)];              mass := 15999 # 1000 |});
    ("Fe",    {| atoms := [("Fe", 1)];             mass := 55845 # 1000 |});
    ("FeO",   {| atoms := [("Fe", 1); ("O", 1)];   mass := 71844 # 1000 |});
    ("Fe2O3", {| atoms := [("Fe", 2); ("O", 3)];   mass := 159687 # 1000 |});
    ("Mg",    {| atoms := [("Mg", 1)];             mass := 24305 # 1000 |});
    ("MgO",   {| atoms := [("Mg", 1); ("O", 1)];   mass := 40304 # 1000 |});
    ("Si",    {| atoms := [("Si", 1)];             mass := 28085 # 1000 |});
    ("SiO2",  {| atoms := [("Si", 1); ("O", 2)];   mass := 60083 # 1000 |});
    ("La",    {| atoms := [("La", 1)];             mass := 138905 # 1000 |});
    ("Ce",    {| atoms := [("Ce", 1)];             mass := 140116 # 1000 |});
    ("Yb",    {| atoms := [("Yb", 1)];             mass := 173045 # 1000 |}) ].

Definition oxide_table : list (string * list string) :=
  [ ("Fe", ["FeO"; "Fe2O3"]); ("Mg", ["MgO"]); ("Si", ["SiO2"]);
    ("La", ["La2O3"]); ("Ce", ["Ce2O3"; "CeO2"]); ("Yb", ["YbO"; "Yb2O3"]) ].

Definition radii_table : list (string * Q) :=
  [ ("La", 1160 # 1000); ("Ce", 1143 # 1000); ("Yb", 985 # 1000) ].

Definition chondrite : RefComp :=
  {| ref_value := fun el => assoc el [ ("La", Fin (2472 # 10000));
                                       ("Ce", Fin (6308 # 10000));
                                       ("Yb", Fin (1694 # 10000)) ] |}.

Definition upper_ascii (c : ascii) : ascii :=
  let n := nat_of_ascii c in
  if ((97 <=? n) && (n <=? 122))%nat then ascii_of_nat (n - 32) else c.

(** [str.capitalize]. *)
Definition capitalize (s : string) : string :=
  match s with
  | EmptyString => EmptyString
  | String c s' => String (upper_ascii c) (lower s')
  end.

(** The exponential and the logarithm, where the value is rational. *)
Definition exp_rational (v : fval) : fval :=
  match v with
  | Fin q => if Qeq_bool q 0 then Fin 1 else NaN
  | PInf => PInf
  | NInf => Fin 0
  | NaN => NaN
  end.

Definition log_rational (v : fval) : fval :=
  match v with
  | Fin q => if Qeq_bool q 1 then Fin 0
             else if Qeq_bool q 0 then NInf else NaN
  | PInf => PInf
  | NInf | NaN => NaN
  end.

(** A fit of degree one is the mean of the row; the sample returns it as
    the first coefficient and zero for the others. *)
Definition mean_fit (r : list fval) (degree : nat) : list fval :=
  take degree (fdiv (fold_left fadd r (Fin 0)) (Fin (inject_Z (Z.of_nat (length r))))
               :: repeat (Fin 0) degree).

Definition env : Env :=
  {| pt_formula := fun s => assoc s formula_table;
     simple_oxides := fun c => default [] (assoc c oxide_table);
     common_elements := ["Si"; "Mg"; "Fe"; "La"; "Ce"; "Yb"; "O"];
     common_oxides := ["SiO2"; "MgO"; "FeO"; "Fe2O3"; "FeOT"; "Fe2O3T"];
     REE := ["La"; "Ce"; "Pr"; "Nd"; "Pm"; "Sm"; "Eu"; "Gd"; "Tb"; "Dy";
             "Ho"; "Er"; "Tm"; "Yb"; "Lu"];
     get_ionic_radii := mapM (fun el => match assoc el radii_table with
                                        | Some r => Ok r
                                        | None => Err (KeyError el)
                                        end);
     np_exp := exp_rational;
     np_log := log_rational;
     titlecase := capitalize;
     get_reference_composition := fun s =>
       if String.eqb s "Chondrite_PON" then Ok chondrite else Err (KeyError s);
     set_units := fun r _ => r;
     OP_constants := fun _ degree => repeat [] degree;
     lambdas := fun r _ _ degree => Ok (mean_fit r degree) |}.

(** Iron and magnesium in three forms, with a sample label. *)
Definition rock : DataFrame :=
  {| index_size := 2;
     columns := [ ("Depth", [Fin 10; Fin 20]);
                  ("MgO",   [Fin 8;  Fin 6]);
                  ("FeO",   [Fin 7;  Fin 5]);
                  ("Fe2O3", [Fin 2;  NaN]) ] |}.

End Sample.

(** ** The words of the specification

    Definitions that follow the prose of the specification, to be compared
    with what the functions above compute. *)

Module Spec.

(** What a converted value adds to the sum of its row: a negative or
    non-finite value counts as zero. *)
Definition contribution (v : fval) : Q :=
  match v with
  | Fin q => if Qlt_bool q 0 then 0 else q
  | PInf | NInf | NaN => 0
  end.

Definition Qsum (l : list Q) : Q := fold_right Qplus 0 l.

(** A row whose sum is not positive is null. *)
Definition aggregate_of_row (converted : list fval) : fval :=
  let total := Qsum (map contribution converted) in
  if Qle_bool total 0 then NaN else Fin total.

(** A ratio normalised to a reference composition: numerator and
    denominator are each divided by their reference value first. *)
Definition normalised_ratio (num den num_n den_n : fval) : fval :=
  fdiv (fdiv num num_n) (fdiv den den_n).

(** An error message names a target when the target occurs in it. *)
Definition names_targets (msg : string) (targets : list string) : Prop :=
  Forall (fun t => contains t msg = true) targets.

End Spec.
Export Spec.

(** A computation is framed by [n] when it leaves every table stored below
    [n] as it found it, keeps the store at least that long, and returns a
    result that satisfies [P]. *)
Definition frame {A : Type} (n : nat) (P : A -> Prop) (m : M A) : Prop :=
  forall h : store, (n <= length h)%nat ->
    (forall l : loc, (l < n)%nat -> snd (m h) !! l = h !! l) /\
    (n <= length (snd (m h)))%nat /\
    (forall a, fst (m h) = Ok a -> P a).

(** A cell that is a finite value or null. *)
Definition finite_or_nan (v : fval) : Prop :=
  v = NaN \/ exists q, v = Fin q.

(** The candidate columns as [elemental_sum] reads them: inverse
    log-transformed when the data are logarithms. *)
Definition candidate_columns (E : Env) (df : DataFrame)
  (cationname total_suffix : string) (logdata : bool)
  : list (string * list fval) :=
  map (fun s => (s, let col := default [] (get_col df s) in
                    if logdata then map (np_exp E) col else col))
      (candidate_species E df cationname total_suffix).

(** The factor of the last step of [elemental_sum], which recasts the
    aggregate as [to]. *)
Definition target_factor (E : Env) (cationname : string) (to : option string)
  (molecular : bool) : res Q :=
  match to with
  | None => Ok 1
  | Some t => c <-- oxide_conversion E cationname t molecular ;; factor c
  end.

(** ** Further functions of [transform.py] *)

(** [devolatilise]: the columns that are not in [exclude], renormalised on
    request. *)
Definition devolatilise (df : DataFrame) (exclude : list string) (renorm : bool)
  : res DataFrame :=
  let keep := List.filter (fun i => negb (mem i exclude)) (col_names df) in
  sub <-- loc_cols df keep ;;
  if renorm then Ok (renormalise sub) else Ok sub.

(** The names [aggregate_element] writes to, for each shape of [to]. *)
Definition target_names (to : target) : list string :=
  match to with
  | TStr s | TFormula s => [s]
  | TDict d => map fst d
  | TSeq _ => []
  end.

(** The simple oxides of a cation with their total-suffixed variants: the
    columns [aggregate_element] regards as forms of the cation. *)
Definition oxide_species (E : Env) (cation total_suffix : string) : list string :=
  simple_oxides E cation
  ++ map (fun i => i +:+ total_suffix) (simple_oxides E cation).

(** The number of occurrences of a character in a string. *)
Fixpoint count_char (c : ascii) (s : string) : nat :=
  match s with
  | EmptyString => 0
  | String c' s' => (if Ascii.eqb c' c then 1 else 0) + count_char c s'
  end.

(** A cell that is null or a positive finite value. *)
Definition positive_or_nan (v : fval) : Prop :=
  v = NaN \/ exists q, v = Fin q /\ 0 < q.

(** A cell that is null or a finite value strictly between 0 and 1. *)
Definition fraction_or_nan (v : fval) : Prop :=
  v = NaN \/ exists q, v = Fin q /\ 0 < q /\ q < 1.

(** A cell that is null or greater than zero, [+inf] included: a cell on
    which [v <= 0.0] is false. *)
Definition positive_or_null (v : fval) : Prop :=
  v = NaN \/ v = PInf \/ exists q, v = Fin q /\ 0 < q.

(** A cell that is null or a finite value of the interval [0, 1], end
    points included. *)
Definition unit_or_nan (v : fval) : Prop :=
  v = NaN \/ exists q, v = Fin q /\ 0 <= q /\ q <= 1.

(** * Properties *)

(** ** Cells *)

Section CellFacts.

Lemma Qlt_bool_iff (x y : Q) : Qlt_bool x y = true <-> x < y.
Proof.
  unfold Qlt_bool. rewrite negb_true_iff.
  split; intros H.
  - apply Qnot_le_lt. intros Hle. apply Qle_bool_iff in Hle. congruence.
  - destruct (Qle_bool y x) eqn:Hb; [|reflexivity].
    apply Qle_bool_iff in Hb. exfalso. apply (Qlt_not_le _ _ H Hb).
Qed.

Lemma Qlt_bool_false (x y : Q) : Qlt_bool x y = false <-> y <= x.
Proof.
  unfold Qlt_bool. rewrite negb_false_iff. apply Qle_bool_iff.
Qed.

Lemma Qeq_bool_false (x y : Q) : ~ x == y -> Qeq_bool x y = false.
Proof.
  intros H. destruct (Qeq_bool x y) eqn:Hb; [|reflexivity].
  apply Qeq_bool_iff in Hb. contradiction.
Qed.

Lemma feq_refl (a : fval) : a =f= a.
Proof. destruct a; simpl; auto. reflexivity. Qed.

Lemma feq_sym (a b : fval) : a =f= b -> b =f= a.
Proof. destruct a, b; simpl; auto. intros H. symmetry. exact H. Qed.

Lemma feq_trans (a b c : fval) : a =f= b -> b =f= c -> a =f= c.
Proof.
  destruct a, b, c; simpl; auto; try contradiction.
  intros H1 H2. rewrite H1. exact H2.
Qed.

Lemma column_eq_refl (xs : list fval) : column_eq xs xs.
Proof. induction xs; constructor; auto using feq_refl. Qed.

Lemma inf_signed_pos (q : Q) : 0 < q -> inf_signed q = PInf.
Proof.
  intros H. unfold inf_signed.
  destruct (Qlt_bool 0 q) eqn:Hb; [reflexivity|].
  apply Qlt_bool_false in Hb. exfalso. apply (Qlt_not_le _ _ H Hb).
Qed.

(** Dividing a cell by a positive weight and multiplying it back gives the
    cell again. *)
Lemma fdiv_fmul_cancel (v : fval) (w : Q) :
  0 < w -> fmul (fdiv v (Fin w)) (Fin w) =f= v.
Proof.
  intros Hw.
  assert (Hne : ~ w == 0) by (intros H0; rewrite H0 in Hw; apply (Qlt_irrefl 0 Hw)).
  assert (Hnlt : Qlt_bool w 0 = false)
    by (apply Qlt_bool_false; apply Qlt_le_weak; exact Hw).
  destruct v as [x| | |]; simpl.
  - rewrite (Qeq_bool_false _ _ Hne). simpl. field. exact Hne.
  - rewrite Hnlt. simpl. rewrite (inf_signed_pos _ Hw). exact I.
  - rewrite Hnlt. simpl. rewrite (inf_signed_pos _ Hw). exact I.
  - exact I.
Qed.

End CellFacts.

(** ** Fallible loops *)

Section MapMFacts.

Context {A B : Type}.

Lemma mapM_Forall2 (f : A -> res B) (xs : list A) (ys : list B) :
  mapM f xs = Ok ys <-> Forall2 (fun x y => f x = Ok y) xs ys.
Proof.
  revert ys. induction xs as [|x xs IH]; intros ys; simpl.
  - split.
    + intros H. injection H as <-. constructor.
    + intros H. inversion H. reflexivity.
  - split.
    + intros H. destruct (f x) as [y|e] eqn:Hf; simpl in H; [|discriminate].
      destruct (mapM f xs) as [ys'|e] eqn:Hm; simpl in H; [|discriminate].
      injection H as <-. constructor; [exact Hf|]. apply IH. reflexivity.
    + intros H. inversion H as [|x' y l l' Hf Hrest]; subst.
      rewrite Hf. simpl. apply IH in Hrest. rewrite Hrest. reflexivity.
Qed.

Lemma mapM_length (f : A -> res B) (xs : list A) (ys : list B) :
  mapM f xs = Ok ys -> length ys = length xs.
Proof.
  intros H. apply mapM_Forall2 in H. symmetry. eapply Forall2_length. exact H.
Qed.

(** A loop whose body cannot raise is a plain map. *)
Lemma mapM_total (f : A -> res B) (g : A -> B) (xs : list A) :
  (forall x, In x xs -> f x = Ok (g x)) -> mapM f xs = Ok (map g xs).
Proof.
  induction xs as [|x xs IH]; intros H; simpl; [reflexivity|].
  rewrite (H x (or_introl eq_refl)). simpl.
  rewrite IH; [reflexivity|]. intros y Hy. apply H. right. exact Hy.
Qed.

End MapMFacts.

(** ** Conversion factors *)

Section ConversionFacts.

Context (E : Env).

Lemma same_keys_single (e : string) : same_keys [e] [e] = true.
Proof.
  unfold same_keys, mem. simpl. rewrite String.eqb_refl. reflexivity.
Qed.

(** A count listed among the non-oxygen atoms of a well-formed formula is
    positive. *)
Lemma non_oxygen_count_pos (f : Formula) (e : string) (n : Q) :
  wf_formula f -> In (e, n) (non_oxygen (atoms f)) -> 0 < n.
Proof.
  intros [Hat _] Hin. unfold non_oxygen in Hin.
  apply filter_In in Hin as [Hin _].
  rewrite Forall_forall in Hat. apply list_elem_of_In in Hin.
  apply (Hat _ Hin).
Qed.

(** The converter built for two forms of one cation. *)
Lemma oxide_conversion_ok (A B : string) (molecular : bool)
  (fa fb : Formula) (e : string) (a b : Q) :
  pt_formula E A = Some fa -> pt_formula E B = Some fb ->
  non_oxygen (atoms fa) = [(e, a)] -> non_oxygen (atoms fb) = [(e, b)] ->
  0 < b ->
  oxide_conversion E A B molecular =
    Ok {| oxin := fa; oxout := fb; cation_coefficient := a / b;
          molecular_flag := molecular |}.
Proof.
  intros HA HB Ha Hb Hpos. unfold oxide_conversion, resolve.
  rewrite HA, HB. simpl. rewrite Ha, Hb. simpl.
  rewrite same_keys_single. simpl.
  rewrite Qeq_bool_false; [reflexivity|].
  intros H0. rewrite H0 in Hpos. apply (Qlt_irrefl 0 Hpos).
Qed.

Lemma factor_ok (c : converter) :
  0 < mass (oxin c) ->
  factor c = Ok (if molecular_flag c then cation_coefficient c
                 else cation_coefficient c * mass (oxout c) / mass (oxin c)).
Proof.
  intros Hm. unfold factor. destruct (molecular_flag c); [reflexivity|].
  rewrite Qeq_bool_false; [reflexivity|].
  intros H0. rewrite H0 in Hm. apply (Qlt_irrefl 0 Hm).
Qed.

End ConversionFacts.

Ltac Qpos := unfold Qlt; simpl; lia.

Ltac wf_sample := split; [repeat constructor; Qpos | Qpos].

(** Two forms of one cation convert into each other, and the two factors
    are inverse to each other. *)
Lemma factors_inverse (E : Env) (A B : string) (molecular : bool)
  (fa fb : Formula) (e : string) (a b : Q) :
  pt_formula E A = Some fa -> pt_formula E B = Some fb ->
  wf_formula fa -> wf_formula fb ->
  non_oxygen (atoms fa) = [(e, a)] -> non_oxygen (atoms fb) = [(e, b)] ->
  exists cab cba f g,
    oxide_conversion E A B molecular = Ok cab /\
    oxide_conversion E B A molecular = Ok cba /\
    factor cab = Ok f /\ factor cba = Ok g /\
    f * g == 1.
Proof.
  intros HA HB Hwa Hwb Ha Hb.
  assert (Hapos : 0 < a).
  { apply (non_oxygen_count_pos fa e); [exact Hwa|]. rewrite Ha. left. reflexivity. }
  assert (Hbpos : 0 < b).
  { apply (non_oxygen_count_pos fb e); [exact Hwb|]. rewrite Hb. left. reflexivity. }
  destruct Hwa as [_ Hma]. destruct Hwb as [_ Hmb].
  eexists _, _, _, _.
  split; [apply (oxide_conversion_ok E A B molecular fa fb e a b); assumption|].
  split; [apply (oxide_conversion_ok E B A molecular fb fa e b a); assumption|].
  split; [apply factor_ok; exact Hma|].
  split; [apply factor_ok; exact Hmb|].
  simpl.
  assert (a0 : ~ a == 0) by (intros H0; rewrite H0 in Hapos; apply (Qlt_irrefl 0 Hapos)).
  assert (b0 : ~ b == 0) by (intros H0; rewrite H0 in Hbpos; apply (Qlt_irrefl 0 Hbpos)).
  assert (ma0 : ~ mass fa == 0) by (intros H0; rewrite H0 in Hma; apply (Qlt_irrefl 0 Hma)).
  assert (mb0 : ~ mass fb == 0) by (intros H0; rewrite H0 in Hmb; apply (Qlt_irrefl 0 Hmb)).
  destruct molecular; field; auto.
Qed.


(** C5. For two chemical forms [A] and [B] that resolve to exactly one and
    the same non-oxygen element, and for either value of the molecular
    flag, [oxide_conversion A B] and [oxide_conversion B A] both return a
    converter, and the factor of the first times the factor of the second
    is one. *)
Theorem oxide_conversion_round_trip (E : Env) (A B : string) (molecular : bool)
  (fa fb : Formula) (e : string) (a b : Q) :
  pt_formula E A = Some fa -> pt_formula E B = Some fb ->
  wf_formula fa -> wf_formula fb ->
  non_oxygen (atoms fa) = [(e, a)] -> non_oxygen (atoms fb) = [(e, b)] ->
  exists cab cba f g,
    oxide_conversion E A B molecular = Ok cab /\
    oxide_conversion E B A molecular = Ok cba /\
    factor cab = Ok f /\ factor cba = Ok g /\
    f * g == 1.
Proof.
  exact (factors_inverse E A B molecular fa fb e a b).
Qed.

Lemma oxide_conversion_round_trip_witness :
  exists cab cba f g,
    oxide_conversion Sample.env "FeO" "Fe2O3" false = Ok cab /\
    oxide_conversion Sample.env "Fe2O3" "FeO" false = Ok cba /\
    factor cab = Ok f /\ factor cba = Ok g /\
    f * g == 1.
Proof.
  apply (oxide_conversion_round_trip Sample.env "FeO" "Fe2O3" false
           {| atoms := [("Fe", 1); ("O", 1)]; mass := 71844 # 1000 |}
           {| atoms := [("Fe", 2); ("O", 3)]; mass := 159687 # 1000 |}
           "Fe" 1 2);
    try reflexivity; wf_sample.
Defined.

(** ** Mass and molar bases *)

Section BasisFacts.

Context (E : Env).

Lemma weights_of_names (names : list string) :
  Forall (fun c => exists f, pt_formula E c = Some f /\ 0 < mass f) names ->
  exists ws, mapM (fun c => f <-- resolve E c ;; Ok (mass f)) names = Ok ws /\
             length ws = length names /\
             Forall (fun w => 0 < w) ws.
Proof.
  induction names as [|c names IH]; intros H.
  - exists []. repeat split; constructor.
  - inversion H as [|? ? [f [Hf Hm]] Hrest]; subst.
    destruct (IH Hrest) as [ws [Hws [Hlen Hpos]]].
    exists (mass f :: ws). cbn [mapM]. unfold resolve at 1. rewrite Hf.
    cbn [rbind]. rewrite Hws. cbn [rbind].
    repeat split; [cbn; congruence | constructor; assumption].
Qed.

Lemma molecular_weights_spec (df : DataFrame) :
  Forall (fun c => exists f, pt_formula E c = Some f /\ 0 < mass f) (col_names df) ->
  exists ws, molecular_weights E df = Ok ws /\
             length ws = length (columns df) /\
             Forall (fun w => 0 < w) ws.
Proof.
  intros H. destruct (weights_of_names _ H) as [ws [Hws [Hlen Hpos]]].
  exists ws. repeat split; try assumption.
  rewrite Hlen. unfold col_names. apply length_map.
Qed.

Lemma div_columns_names (df : DataFrame) (ws : list Q) :
  length ws = length (columns df) ->
  col_names (div_columns df ws) = col_names df.
Proof.
  unfold col_names, div_columns. simpl.
  revert ws. induction (columns df) as [|kv cols IH]; intros [|w ws] H;
    simpl in *; try discriminate; [reflexivity|].
  f_equal. apply IH. lia.
Qed.

Lemma mul_div_columns (cols : list (string * list fval)) (ws : list Q) :
  length ws = length cols -> Forall (fun w => 0 < w) ws ->
  Forall2 (fun x y => fst x = fst y /\ column_eq (snd x) (snd y))
    (zip_with (fun kv w => (fst kv, map (fun v => fmul v (Fin w)) (snd kv)))
       (zip_with (fun kv w => (fst kv, map (fun v => fdiv v (Fin w)) (snd kv)))
          cols ws) ws)
    cols.
Proof.
  revert ws. induction cols as [|[c col] cols IH]; intros [|w ws] Hlen Hpos;
    simpl in *; try discriminate; constructor.
  - simpl. split; [reflexivity|].
    inversion Hpos as [|? ? Hw _]; subst.
    unfold column_eq. induction col as [|v col IHc]; simpl; constructor.
    + apply fdiv_fmul_cancel. exact Hw.
    + exact IHc.
  - apply IH; [lia|]. inversion Hpos; assumption.
Qed.

End BasisFacts.

(** C4. For a table whose column names all resolve to (positive) molecular
    weights, [to_molecular] without renormalisation followed by [to_weight]
    without renormalisation returns the table, cell by cell.  The cells
    may hold any value; for finite ones the equality is that of exact
    arithmetic. *)
Theorem to_weight_to_molecular (E : Env) (X : DataFrame) :
  Forall (fun c => exists f, pt_formula E c = Some f /\ 0 < mass f) (col_names X) ->
  exists Y Z,
    to_molecular E X false = Ok Y /\
    to_weight E Y false = Ok Z /\
    frame_eq Z X.
Proof.
  intros H.
  destruct (molecular_weights_spec E X H) as [ws [Hws [Hlen Hpos]]].
  exists (div_columns X ws), (mul_columns (div_columns X ws) ws).
  split; [unfold to_molecular; rewrite Hws; reflexivity|].
  split.
  - unfold to_weight.
    assert (Hmw : molecular_weights E (div_columns X ws) = Ok ws).
    { unfold molecular_weights. rewrite (div_columns_names X ws Hlen). exact Hws. }
    rewrite Hmw. reflexivity.
  - split; [reflexivity|]. simpl. apply mul_div_columns; assumption.
Qed.

Lemma to_weight_to_molecular_witness :
  exists Y Z,
    to_molecular Sample.env
      {| index_size := 2;
         columns := [("MgO", [Fin 8; Fin 6]); ("FeO", [Fin 7; Fin 5])] |} false = Ok Y /\
    to_weight Sample.env Y false = Ok Z /\
    frame_eq Z {| index_size := 2;
                  columns := [("MgO", [Fin 8; Fin 6]); ("FeO", [Fin 7; Fin 5])] |}.
Proof.
  apply (to_weight_to_molecular Sample.env).
  repeat constructor; simpl; eexists; (split; [reflexivity | Qpos]).
Defined.

(** ** Columns of a table *)

Section FrameFacts.

Context {A : Type}.

Lemma assoc_set_assoc_eq (k : string) (v : A) (l : list (string * A)) :
  assoc k (set_assoc k v l) = Some v.
Proof.
  induction l as [|[k' v'] l IH]; simpl.
  - rewrite String.eqb_refl. reflexivity.
  - destruct (String.eqb k k') eqn:Hk; simpl.
    + rewrite String.eqb_refl. reflexivity.
    + rewrite Hk. exact IH.
Qed.

Lemma assoc_set_assoc_ne (k k' : string) (v : A) (l : list (string * A)) :
  k <> k' -> assoc k (set_assoc k' v l) = assoc k l.
Proof.
  intros Hne. induction l as [|[k0 v0] l IH]; simpl.
  - destruct (String.eqb_spec k k'); [contradiction|reflexivity].
  - destruct (String.eqb_spec k' k0) as [->|Hn0]; simpl.
    + destruct (String.eqb_spec k k0); [contradiction|reflexivity].
    + destruct (String.eqb_spec k k0); [reflexivity|exact IH].
Qed.

Lemma mem_assoc (k : string) (l : list (string * A)) :
  mem k (map fst l) = true -> exists v, assoc k l = Some v.
Proof.
  unfold mem. induction l as [|[k' v'] l IH]; simpl; [discriminate|].
  destruct (String.eqb k k') eqn:Hk; simpl.
  - intros _. eexists. reflexivity.
  - exact IH.
Qed.

Lemma assoc_In (k : string) (v : A) (l : list (string * A)) :
  assoc k l = Some v -> In (k, v) l.
Proof.
  induction l as [|[k' v'] l IH]; simpl; [discriminate|].
  destruct (String.eqb_spec k k') as [->|Hn].
  - intros H. injection H as ->. left. reflexivity.
  - intros H. right. apply IH. exact H.
Qed.

Lemma nth_zip_with {B C : Type} (f : A -> B -> C) (xs : list A) (ys : list B)
  (r : nat) (dx : A) (dy : B) (dz : C) :
  (r < length xs)%nat -> (r < length ys)%nat ->
  nth r (zip_with f xs ys) dz = f (nth r xs dx) (nth r ys dy).
Proof.
  revert ys r. induction xs as [|x xs IH]; intros [|y ys] [|r] Hx Hy;
    simpl in *; try lia; [reflexivity|].
  apply IH; lia.
Qed.

Lemma nth_map_lt {B : Type} (f : A -> B) (l : list A) (r : nat) (d : B) (d' : A) :
  (r < length l)%nat -> nth r (map f l) d = f (nth r l d').
Proof.
  intros H. rewrite (nth_indep _ d (f d')) by (rewrite length_map; lia).
  apply map_nth.
Qed.

End FrameFacts.

Lemma mem_In (x : string) (xs : list string) : mem x xs = true <-> In x xs.
Proof.
  unfold mem. rewrite existsb_exists. split.
  - intros [y [Hy Hxy]]. apply String.eqb_eq in Hxy. subst. exact Hy.
  - intros H. exists x. split; [exact H|apply String.eqb_refl].
Qed.

Lemma get_col_length (df : DataFrame) (c : string) (col : list fval) :
  wf_frame df -> get_col df c = Some col -> length col = index_size df.
Proof.
  intros Hwf Hc. apply assoc_In in Hc.
  unfold wf_frame in Hwf. rewrite Forall_forall in Hwf.
  apply list_elem_of_In in Hc. apply (Hwf _ Hc).
Qed.

(** Selecting columns that are all present cannot raise. *)
Lemma loc_cols_present (df : DataFrame) (names : list string) :
  (forall c, In c names -> has_col df c = true) ->
  loc_cols df names =
    Ok {| index_size := index_size df;
          columns := map (fun c => (c, default [] (get_col df c))) names |}.
Proof.
  intros H. unfold loc_cols.
  rewrite (mapM_total _ (fun c => (c, default [] (get_col df c)))); [reflexivity|].
  intros c Hc. destruct (mem_assoc c (columns df) (H c Hc)) as [v Hv].
  unfold get_col. rewrite Hv. reflexivity.
Qed.

(** ** Row sums *)

Section SumFacts.

Lemma zero_invalid_contribution (v : fval) :
  zero_invalid v = Fin (contribution v).
Proof.
  destruct v as [q| | |]; simpl; try reflexivity.
  unfold zero_invalid. simpl. destruct (Qlt_bool q 0); reflexivity.
Qed.

Lemma sum_axis1_acc (n r : nat) (cols : list (list fval)) (acc : list fval) (a : Q) :
  Forall (fun col => length col = n) cols ->
  length acc = n -> (r < n)%nat -> nth r acc NaN = Fin a ->
  let out := fold_left (fun acc col => zip_with fadd acc (map skipna col))
                       (map (map zero_invalid) cols) acc in
  length out = n /\
  exists q, nth r out NaN = Fin q /\
            q == a + Qsum (map (fun col => contribution (nth r col NaN)) cols).
Proof.
  revert acc a. induction cols as [|col cols IH]; intros acc a Hlen Hacc Hr Hnth; simpl.
  - split; [exact Hacc|]. exists a. split; [exact Hnth|]. ring.
  - apply Forall_cons in Hlen as [Hcol Hrest].
    set (acc' := zip_with fadd acc (map skipna (map zero_invalid col))).
    assert (Hacc' : length acc' = n).
    { unfold acc'. rewrite length_zip_with, !length_map. lia. }
    assert (Hnth' : nth r acc' NaN = Fin (a + contribution (nth r col NaN))).
    { unfold acc'.
      rewrite (nth_zip_with fadd _ _ r NaN NaN NaN); [|lia|rewrite !length_map; lia].
      rewrite Hnth.
      rewrite (nth_map_lt skipna _ r NaN NaN) by (rewrite length_map; lia).
      rewrite (nth_map_lt zero_invalid _ r NaN NaN) by lia.
      rewrite zero_invalid_contribution. reflexivity. }
    destruct (IH acc' _ Hrest Hacc' Hr Hnth') as [Hl [q [Hq Heq]]].
    split; [exact Hl|]. exists q. split; [exact Hq|].
    rewrite Heq. simpl. ring.
Qed.

Lemma nth_repeat_lt {A : Type} (x d : A) (n r : nat) :
  (r < n)%nat -> nth r (repeat x n) d = x.
Proof.
  revert r. induction n as [|n IH]; intros [|r] H; simpl; try lia; [reflexivity|].
  apply IH. lia.
Qed.

(** The sum of the zeroed columns, row by row. *)
Lemma sum_axis1_zeroed (n r : nat) (cols : list (list fval)) :
  Forall (fun col => length col = n) cols -> (r < n)%nat ->
  length (sum_axis1 n (map (map zero_invalid) cols)) = n /\
  exists q, nth r (sum_axis1 n (map (map zero_invalid) cols)) NaN = Fin q /\
            q == Qsum (map (fun col => contribution (nth r col NaN)) cols).
Proof.
  intros Hlen Hr. unfold sum_axis1.
  destruct (sum_axis1_acc n r cols (repeat (Fin 0) n) 0 Hlen
              (repeat_length _ _) Hr (nth_repeat_lt _ _ _ _ Hr)) as [Hl [q [Hq Heq]]].
  split; [exact Hl|]. exists q. split; [exact Hq|]. rewrite Heq. ring.
Qed.

Lemma sum_axis1_length (n : nat) (cols : list (list fval)) :
  Forall (fun col => length col = n) cols ->
  length (sum_axis1 n cols) = n.
Proof.
  unfold sum_axis1. generalize (repeat_length (Fin 0) n).
  generalize (repeat (Fin 0) n) as acc.
  induction cols as [|col cols IH]; intros acc Hacc Hlen; simpl; [exact Hacc|].
  apply Forall_cons in Hlen as [Hcol Hrest]. apply IH; [|assumption].
  rewrite length_zip_with, length_map. lia.
Qed.

Lemma Qle_bool_Qeq (x y : Q) : x == y -> Qle_bool x 0 = Qle_bool y 0.
Proof.
  intros H. destruct (Qle_bool x 0) eqn:Hx, (Qle_bool y 0) eqn:Hy; try reflexivity.
  - apply Qle_bool_iff in Hx. rewrite H in Hx. apply Qle_bool_iff in Hx. congruence.
  - apply Qle_bool_iff in Hy. rewrite <- H in Hy. apply Qle_bool_iff in Hy. congruence.
Qed.

End SumFacts.

(** ** The elemental sum *)

Section ElementalSumFacts.

Context (E : Env).

Lemma candidate_species_present (df : DataFrame) (cation suffix c : string) :
  In c (candidate_species E df cation suffix) -> has_col df c = true.
Proof.
  unfold candidate_species. intros H. apply filter_In in H. apply H.
Qed.

(** The table of candidates after the optional inverse log-transform. *)
Lemma candidates_read (df : DataFrame) (cation suffix : string) (logdata : bool) :
  rbind (loc_cols df (candidate_species E df cation suffix))
        (fun subdf => Ok (columns (if logdata then applymap (np_exp E) subdf else subdf)))
  = Ok (candidate_columns E df cation suffix logdata).
Proof.
  rewrite loc_cols_present by apply candidate_species_present.
  unfold candidate_columns. destruct logdata; simpl; [|reflexivity].
  rewrite map_map. reflexivity.
Qed.

Lemma candidate_columns_length (df : DataFrame) (cation suffix : string)
  (logdata : bool) :
  wf_frame df ->
  Forall (fun kv => length (snd kv) = index_size df)
         (candidate_columns E df cation suffix logdata).
Proof.
  intros Hwf. unfold candidate_columns. rewrite Forall_map.
  rewrite Forall_forall. intros s Hs. apply list_elem_of_In in Hs.
  apply candidate_species_present in Hs.
  destruct (mem_assoc s (columns df) Hs) as [col Hcol].
  unfold get_col. rewrite Hcol. simpl.
  pose proof (get_col_length df s col Hwf Hcol) as Hlen.
  destruct logdata; [rewrite length_map|]; exact Hlen.
Qed.

Lemma convert_candidates_length (cols converted : list (string * list fval))
  (cation suffix : string) (molecular : bool) (n : nat) :
  Forall (fun kv => length (snd kv) = n) cols ->
  convert_candidates E cols cation suffix molecular = Ok converted ->
  Forall (fun col => length col = n) (map snd converted).
Proof.
  intros Hlen Hconv. unfold convert_candidates in Hconv.
  apply mapM_Forall2 in Hconv. rewrite Forall_map.
  induction Hconv as [|kv kv' cols converted Hkv _ IH]; [constructor|].
  apply Forall_cons in Hlen as [Hl Hrest].
  constructor; [|apply IH; exact Hrest].
  unfold apply_conversion in Hkv.
  destruct (oxide_conversion E _ _ _) as [c|e]; simpl in Hkv; [|discriminate].
  destruct (mapM (convert_series c) (snd kv)) as [col|e] eqn:Hm; simpl in Hkv;
    [|discriminate].
  injection Hkv as <-. simpl. apply mapM_length in Hm. lia.
Qed.

Lemma apply_conversion_factor (a b : string) (molecular : bool) (c : converter)
  (k : Q) (ser : list fval) :
  oxide_conversion E a b molecular = Ok c -> factor c = Ok k ->
  apply_conversion E a b molecular ser = Ok (map (fun v => fmul v (Fin k)) ser).
Proof.
  intros Hc Hk. unfold apply_conversion. rewrite Hc. simpl.
  apply mapM_total. intros x _. unfold convert_series. rewrite Hk. reflexivity.
Qed.

Lemma fmul_null_nonpositive (total q k : Q) :
  q == total ->
  fmul (null_nonpositive (Fin q)) (Fin k) =f=
  fmul (if Qle_bool total 0 then NaN else Fin total) (Fin k).
Proof.
  intros Hq. unfold null_nonpositive. simpl.
  rewrite (Qle_bool_Qeq q total Hq).
  destruct (Qle_bool total 0); simpl; [exact I|]. rewrite Hq. reflexivity.
Qed.

Lemma null_nonpositive_one (total q : Q) :
  q == total ->
  null_nonpositive (Fin q) =f=
  fmul (if Qle_bool total 0 then NaN else Fin total) (Fin 1).
Proof.
  intros Hq. unfold null_nonpositive. simpl.
  rewrite (Qle_bool_Qeq q total Hq).
  destruct (Qle_bool total 0); simpl; [exact I|]. rewrite Hq. ring.
Qed.

End ElementalSumFacts.

(** C3. For a table with at least one candidate species column for the
    requested cation, whose conversions to the cation raise nothing,
    [elemental_sum] returns one cell per row; the cell of a row is the sum
    of the converted candidate values of that row, a negative or
    non-finite one counting as zero, it is null when that sum is not
    positive, and it is recast by the factor of [to] when [to] is given. *)
Theorem elemental_sum_rows (E : Env) (df : DataFrame) (comp : component)
  (to : option string) (suffix : string) (logdata molecular : bool)
  (cation : string) (converted : list (string * list fval)) (k : Q) :
  wf_frame df ->
  resolve_cation E (Some comp) suffix = Ok cation ->
  candidate_species E df cation suffix <> [] ->
  convert_candidates E (candidate_columns E df cation suffix logdata)
                     cation suffix molecular = Ok converted ->
  target_factor E cation to molecular = Ok k ->
  exists ser,
    elemental_sum E df (Some comp) to suffix logdata molecular = Ok ser /\
    length (values ser) = index_size df /\
    forall r, (r < index_size df)%nat ->
      nth r (values ser) NaN =f=
      fmul (aggregate_of_row (map (fun kv => nth r (snd kv) NaN) converted)) (Fin k).
Proof.
  intros Hwf Hcat Hsp Hconv Hk.
  pose proof (candidates_read E df cation suffix logdata) as Hread.
  pose proof (convert_candidates_length E _ _ _ _ _ _
                (candidate_columns_length E df cation suffix logdata Hwf) Hconv) as Hlen.
  unfold elemental_sum. rewrite Hcat. cbn [rbind].
  destruct (candidate_species E df cation suffix) as [|s0 rest] eqn:Hspecies;
    [contradiction|].
  destruct (loc_cols df (s0 :: rest)) as [subdf|e]; cbn [rbind] in Hread |- *;
    [|discriminate].
  injection Hread as Hread. rewrite Hread, Hconv. cbn [rbind].
  set (subsum := map null_nonpositive
                     (sum_axis1 (index_size df)
                        (map (fun kv => map zero_invalid (snd kv)) converted))).
  assert (Hzero : map (fun kv => map zero_invalid (snd kv)) converted
                  = map (map zero_invalid) (map snd converted))
    by (rewrite map_map; reflexivity).
  assert (Hsublen : length subsum = index_size df).
  { unfold subsum. rewrite length_map. apply sum_axis1_length.
    rewrite Hzero, Forall_map. eapply Forall_impl; [exact Hlen|].
    intros col Hc. simpl. rewrite length_map. exact Hc. }
  assert (Hrow : forall r, (r < index_size df)%nat ->
            exists q, nth r subsum NaN = null_nonpositive (Fin q) /\
                      q == Qsum (map contribution
                                   (map (fun kv => nth r (snd kv) NaN) converted))).
  { intros r Hr. unfold subsum. rewrite Hzero.
    destruct (sum_axis1_zeroed (index_size df) r (map snd converted) Hlen Hr)
      as [Hl [q [Hq Heq]]].
    exists q. split.
    - rewrite (nth_map_lt null_nonpositive _ r NaN NaN) by lia. rewrite Hq. reflexivity.
    - rewrite Heq. rewrite !map_map. reflexivity. }
  destruct to as [t|]; simpl in Hk.
  - destruct (oxide_conversion E cation t molecular) as [c|e] eqn:Hc; simpl in Hk;
      [|discriminate].
    rewrite (apply_conversion_factor E cation t molecular c k subsum Hc Hk).
    cbn [rbind]. eexists. split; [reflexivity|]. simpl.
    split; [rewrite length_map; exact Hsublen|].
    intros r Hr. destruct (Hrow r Hr) as [q [Hq Heq]].
    rewrite (nth_map_lt (fun v => fmul v (Fin k)) _ r NaN NaN) by lia.
    rewrite Hq. unfold aggregate_of_row. apply fmul_null_nonpositive. exact Heq.
  - injection Hk as <-. eexists. split; [reflexivity|]. simpl.
    split; [exact Hsublen|].
    intros r Hr. destruct (Hrow r Hr) as [q [Hq Heq]].
    rewrite Hq. unfold aggregate_of_row. apply null_nonpositive_one. exact Heq.
Qed.

Lemma elemental_sum_rows_witness :
  exists converted,
    convert_candidates Sample.env
      (candidate_columns Sample.env Sample.rock "Fe" "T" false) "Fe" "T" false
    = Ok converted /\
    exists ser,
      elemental_sum Sample.env Sample.rock (Some (CName "Fe")) None "T" false false
      = Ok ser /\
      length (values ser) = index_size Sample.rock /\
      forall r, (r < index_size Sample.rock)%nat ->
        nth r (values ser) NaN =f=
        fmul (aggregate_of_row (map (fun kv => nth r (snd kv) NaN) converted)) (Fin 1).
Proof.
  eexists. split; [vm_compute; reflexivity|].
  apply (elemental_sum_rows Sample.env Sample.rock (CName "Fe") None "T" false false "Fe");
    [repeat constructor | reflexivity | discriminate | vm_compute; reflexivity
    | reflexivity].
Defined.

(** ** Redistribution over target species *)

Section RedistributionFacts.

Context (E : Env).

Lemma Forall_repeat {A : Type} (P : A -> Prop) (x : A) (n : nat) :
  P x -> Forall P (repeat x n).
Proof. intros H. induction n; simpl; constructor; assumption. Qed.

Lemma sum_axis1_finite (n : nat) (cols : list (list fval)) :
  Forall (Forall (fun v => isfinite v = true)) cols ->
  Forall (fun v => isfinite v = true) (sum_axis1 n cols).
Proof.
  unfold sum_axis1.
  assert (Hacc : Forall (fun v => isfinite v = true) (repeat (Fin 0) n))
    by (apply Forall_repeat; reflexivity).
  revert Hacc. generalize (repeat (Fin 0) n) as acc.
  induction cols as [|col cols IH]; intros acc Hacc Hcols; simpl; [exact Hacc|].
  apply Forall_cons in Hcols as [Hcol Hrest]. apply IH; [|exact Hrest].
  clear IH Hrest. revert col Hcol.
  induction Hacc as [|a acc Ha _ IHacc]; intros [|v col] Hcol; simpl;
    try constructor.
  - apply Forall_cons in Hcol as [Hv _].
    destruct a, v; simpl in *; try discriminate; reflexivity.
  - apply IHacc. apply Forall_cons in Hcol as [_ Hc]. exact Hc.
Qed.

Lemma zero_invalid_finite (col : list fval) :
  Forall (fun v => isfinite v = true) (map zero_invalid col).
Proof.
  rewrite Forall_map. rewrite Forall_forall. intros v _.
  rewrite zero_invalid_contribution. reflexivity.
Qed.

(** Without [to], the aggregate of a row is a finite value or null. *)
Lemma elemental_sum_values (df : DataFrame) (c : option component)
  (suffix : string) (logdata molecular : bool) (agg : Series) :
  elemental_sum E df c None suffix logdata molecular = Ok agg ->
  Forall finite_or_nan (values agg).
Proof.
  unfold elemental_sum.
  destruct (resolve_cation E c suffix) as [cation|e]; cbn [rbind]; [|discriminate].
  destruct (candidate_species E df cation suffix) as [|s0 rest].
  - cbn [rbind]. intros H. injection H as <-. simpl.
    apply Forall_repeat. left. reflexivity.
  - destruct (loc_cols df (s0 :: rest)) as [subdf|e]; cbn [rbind]; [|discriminate].
    destruct (convert_candidates E _ cation suffix molecular) as [converted|e];
      cbn [rbind]; [|discriminate].
    intros H. injection H as <-. simpl.
    rewrite Forall_map.
    eapply Forall_impl.
    + apply sum_axis1_finite. rewrite Forall_map. rewrite Forall_forall.
      intros kv _. apply zero_invalid_finite.
    + intros v Hv. destruct v; simpl in Hv; try discriminate.
      unfold null_nonpositive. simpl.
      destruct (Qle_bool q 0); [left; reflexivity | right; eexists; reflexivity].
Qed.

Lemma elemental_sum_name (df : DataFrame) (comp : component)
  (suffix : string) (logdata molecular : bool) (agg : Series) :
  elemental_sum E df (Some comp) None suffix logdata molecular = Ok agg ->
  resolve_cation E (Some comp) suffix = Ok (name agg).
Proof.
  unfold elemental_sum.
  destruct (resolve_cation E (Some comp) suffix) as [cation|e]; cbn [rbind];
    [|discriminate].
  match goal with |- rbind ?m _ = _ -> _ => destruct m as [subsum|e] end;
    cbn [rbind]; [|discriminate].
  intros H. injection H as <-. reflexivity.
Qed.


Lemma get_col_set_col_eq (df : DataFrame) (c : string) (v : list fval) :
  get_col (set_col df c v) c = Some v.
Proof. unfold get_col, set_col. simpl. apply assoc_set_assoc_eq. Qed.

Lemma get_col_set_col_ne (df : DataFrame) (c c' : string) (v : list fval) :
  c <> c' -> get_col (set_col df c' v) c = get_col df c.
Proof. intros H. unfold get_col, set_col. simpl. apply assoc_set_assoc_ne. exact H. Qed.



(** The table [aggregate_element] returns, read from the store. *)
Lemma returned_table_aggregate (h : store) (r : loc) (df out : DataFrame)
  (to : target) (suffix : string) (logdata renorm molecular : bool)
  (drop : list string) :
  h !! r = Some df ->
  aggregate_element_table E df to suffix logdata molecular = Ok (drop, out) ->
  returned_table (aggregate_element E r to suffix logdata renorm molecular) h
  = Ok (if renorm then renormalise out else out).
Proof.
  intros Hr Ht. unfold returned_table, aggregate_element, bind, read, lift.
  rewrite Hr, Ht. simpl.
  assert (Hlt : (r < length h)%nat) by (eapply lookup_lt_Some; exact Hr).
  destruct drop as [|d drop]; simpl.
  - destruct renorm; simpl.
    + rewrite list_lookup_middle by reflexivity. reflexivity.
    + rewrite list_lookup_insert_eq by exact Hlt. reflexivity.
  - destruct renorm; simpl.
    + rewrite list_lookup_middle by reflexivity. reflexivity.
    + rewrite list_lookup_middle by reflexivity. reflexivity.
Qed.

End RedistributionFacts.

Section DictFacts.

Context (E : Env).


End DictFacts.



(** ** Well-formed tables *)

Section WellFormed.

Context (E : Env).

Lemma wf_set_col (df : DataFrame) (c : string) (v : list fval) :
  wf_frame df -> length v = index_size df -> wf_frame (set_col df c v).
Proof.
  unfold wf_frame, set_col. simpl. intros Hwf Hv.
  induction (columns df) as [|[k col] l IH]; simpl.
  - constructor; [exact Hv|constructor].
  - apply Forall_cons in Hwf as [Hk Hl].
    destruct (String.eqb c k); constructor; try assumption.
    apply IH. exact Hl.
Qed.

Lemma wf_drop_cols (df : DataFrame) (names : list string) :
  wf_frame df -> wf_frame (drop_cols df names).
Proof.
  unfold wf_frame, drop_cols. simpl. intros Hwf.
  rewrite Forall_forall in *. intros kv Hkv. apply Hwf.
  apply list_elem_of_In in Hkv. apply filter_In in Hkv as [Hkv _].
  apply list_elem_of_In. exact Hkv.
Qed.

Lemma wf_map_cols (f : fval -> fval) (names : list string) (df : DataFrame) :
  wf_frame df -> wf_frame (map_cols f names df).
Proof.
  unfold wf_frame, map_cols. simpl. intros Hwf. rewrite Forall_map.
  eapply Forall_impl; [exact Hwf|]. intros kv Hkv. simpl.
  destruct (mem (fst kv) names); simpl; [rewrite length_map|]; exact Hkv.
Qed.

Lemma has_col_set_col (df : DataFrame) (c c' : string) (v : list fval) :
  has_col (set_col df c v) c' = has_col df c' || String.eqb c' c.
Proof.
  unfold has_col, col_names, set_col, mem. simpl.
  induction (columns df) as [|[k col] l IH]; simpl.
  - rewrite orb_false_r. reflexivity.
  - destruct (String.eqb_spec c k) as [->|Hck]; simpl.
    + destruct (String.eqb c' k); simpl; [reflexivity|].
      rewrite orb_false_r. reflexivity.
    + rewrite IH. destruct (String.eqb c' k); reflexivity.
Qed.

Lemma has_col_map_cols (f : fval -> fval) (names : list string) (df : DataFrame)
  (c : string) :
  has_col (map_cols f names df) c = has_col df c.
Proof.
  unfold has_col, col_names, map_cols. simpl. f_equal. rewrite map_map.
  apply map_ext. intros kv. destruct (mem (fst kv) names); reflexivity.
Qed.

Lemma wf_ensure_cols (names : list string) (df : DataFrame) :
  wf_frame df ->
  wf_frame (fold_left ensure_col names df) /\
  index_size (fold_left ensure_col names df) = index_size df /\
  forall c, has_col (fold_left ensure_col names df) c = has_col df c || mem c names.
Proof.
  revert df. induction names as [|t names IH]; intros df Hwf; simpl.
  - split; [exact Hwf|]. split; [reflexivity|]. intros c. rewrite orb_false_r. reflexivity.
  - assert (Hwf' : wf_frame (ensure_col df t)).
    { unfold ensure_col. destruct (has_col df t); [exact Hwf|].
      apply wf_set_col; [exact Hwf|apply repeat_length]. }
    assert (Hn : index_size (ensure_col df t) = index_size df).
    { unfold ensure_col. destruct (has_col df t); reflexivity. }
    destruct (IH _ Hwf') as [H1 [H2 H3]].
    split; [exact H1|]. split; [congruence|].
    intros c. rewrite H3. unfold ensure_col.
    destruct (has_col df t) eqn:Ht.
    + unfold mem at 2. simpl. fold (mem c names).
      destruct (String.eqb_spec c t) as [->|Hn']; simpl.
      * rewrite Ht. reflexivity.
      * reflexivity.
    + rewrite has_col_set_col. unfold mem at 2. simpl. fold (mem c names).
      destruct (has_col df c), (String.eqb c t), (mem c names); reflexivity.
Qed.

Lemma wf_assign_outer (tcs : list (string * fval)) (subsum : list fval)
  (df : DataFrame) :
  wf_frame df -> length subsum = index_size df ->
  let d := fold_left (fun d tc => set_col d (fst tc)
                                    (map (fun s => fmul s (snd tc)) subsum)) tcs df in
  wf_frame d /\ index_size d = index_size df /\
  forall c, has_col df c = true -> has_col d c = true.
Proof.
  revert df. induction tcs as [|tc tcs IH]; intros df Hwf Hlen; simpl.
  - repeat split; auto.
  - assert (Hwf' : wf_frame (set_col df (fst tc) (map (fun s => fmul s (snd tc)) subsum)))
      by (apply wf_set_col; [exact Hwf|rewrite length_map; exact Hlen]).
    destruct (IH _ Hwf' Hlen) as [H1 [H2 H3]].
    split; [exact H1|]. split; [exact H2|].
    intros c Hc. apply H3. rewrite has_col_set_col, Hc. reflexivity.
Qed.

Lemma wf_copy_cols (src dst : DataFrame) (names : list string) :
  wf_frame src -> wf_frame dst -> index_size src = index_size dst ->
  (forall t, In t names -> has_col src t = true) ->
  wf_frame (copy_cols src names dst) /\
  index_size (copy_cols src names dst) = index_size dst.
Proof.
  unfold copy_cols. intros Hsrc. revert dst.
  induction names as [|t names IH]; intros dst Hdst Hn Hin; simpl.
  - split; [exact Hdst|reflexivity].
  - destruct (mem_assoc t (columns src) (Hin t (or_introl eq_refl))) as [col Hcol].
    change (get_col src t = Some col) in Hcol.
    pose proof (get_col_length src t col Hsrc Hcol) as Hlen.
    rewrite Hcol. simpl.
    assert (Hwf' : wf_frame (set_col dst t col))
      by (apply wf_set_col; [exact Hdst|congruence]).
    destruct (IH (set_col dst t col) Hwf' Hn) as [H1 H2].
    { intros t' Ht'. apply Hin. right. exact Ht'. }
    split; [exact H1|exact H2].
Qed.

End WellFormed.

Section AggregateShape.

Context (E : Env).

Lemma apply_conversion_length (a b : string) (molecular : bool)
  (ser out : list fval) :
  apply_conversion E a b molecular ser = Ok out -> length out = length ser.
Proof.
  unfold apply_conversion.
  destruct (oxide_conversion E a b molecular) as [c|e]; cbn [rbind]; [|discriminate].
  apply mapM_length.
Qed.

(** [elemental_sum] returns one cell per row. *)
Lemma elemental_sum_length (df : DataFrame) (c : option component)
  (to : option string) (suffix : string) (logdata molecular : bool) (agg : Series) :
  wf_frame df ->
  elemental_sum E df c to suffix logdata molecular = Ok agg ->
  length (values agg) = index_size df.
Proof.
  intros Hwf. unfold elemental_sum.
  destruct (resolve_cation E c suffix) as [cation|e]; cbn [rbind]; [|discriminate].
  pose proof (candidates_read E df cation suffix logdata) as Hread.
  pose proof (candidate_columns_length E df cation suffix logdata Hwf) as Hcols.
  assert (Hfin : forall subsum : list fval,
             length subsum = index_size df ->
             match to with
             | None => Ok {| name := cation; values := subsum |}
             | Some t =>
                 vals <-- apply_conversion E cation t molecular subsum ;;
                 Ok {| name := t; values := vals |}
             end = Ok agg -> length (values agg) = index_size df).
  { intros subsum Hlen. destruct to as [t|].
    - destruct (apply_conversion E cation t molecular subsum) as [vals|e] eqn:Hv;
        cbn [rbind]; [|discriminate].
      intros H. injection H as <-. simpl.
      apply apply_conversion_length in Hv. congruence.
    - intros H. injection H as <-. exact Hlen. }
  destruct (candidate_species E df cation suffix) as [|s0 rest].
  - cbn [rbind]. apply Hfin. apply repeat_length.
  - destruct (loc_cols df (s0 :: rest)) as [subdf|e]; cbn [rbind] in Hread |- *;
      [|discriminate].
    injection Hread as Hread. rewrite Hread.
    destruct (convert_candidates E _ cation suffix molecular) as [converted|e] eqn:Hconv;
      cbn [rbind]; [|discriminate].
    apply Hfin. rewrite length_map. apply sum_axis1_length.
    pose proof (convert_candidates_length E _ _ _ _ _ _ Hcols Hconv) as Hlen.
    rewrite Forall_map in Hlen |- *.
    eapply Forall_impl; [exact Hlen|]. intros kv Hkv. rewrite length_map. exact Hkv.
Qed.

(** The table [aggregate_element] computes has the rows of the table it
    reads, in every column. *)
Lemma aggregate_table_wf (df plain : DataFrame) (to : target) (suffix : string)
  (logdata molecular : bool) (drop : list string) :
  wf_frame df ->
  aggregate_element_table E df to suffix logdata molecular = Ok (drop, plain) ->
  wf_frame plain /\ index_size plain = index_size df.
Proof.
  intros Hwf. unfold aggregate_element_table.
  destruct (elemental_sum E df _ None suffix logdata molecular) as [agg|e] eqn:Hagg;
    cbn [rbind]; [|discriminate].
  apply (elemental_sum_length df _ None suffix logdata molecular agg Hwf) in Hagg.
  destruct (speciation E to (name agg) suffix molecular _) as [[[[tn props] coeff] dr]|e];
    cbn [rbind]; [|discriminate].
  intros H. injection H as _ <-.
  destruct (wf_ensure_cols tn df Hwf) as [He1 [He2 He3]].
  assert (Hlen' : length (values agg) = index_size (fold_left ensure_col tn df))
    by congruence.
  destruct (wf_assign_outer (zip tn coeff) (values agg) _ He1 Hlen') as [Ha1 [Ha2 Ha3]].
  fold (assign_outer (fold_left ensure_col tn df) tn (values agg) coeff) in Ha1, Ha2, Ha3.
  set (src := if logdata
              then map_cols (np_log E) tn
                     (assign_outer (fold_left ensure_col tn df) tn (values agg) coeff)
              else assign_outer (fold_left ensure_col tn df) tn (values agg) coeff).
  set (dst := match dr with [] => df | _ :: _ => drop_cols df dr end).
  assert (Hsrc : wf_frame src /\ index_size src = index_size df /\
                 forall t, In t tn -> has_col src t = true).
  { unfold src. destruct logdata.
    - split; [apply wf_map_cols; exact Ha1|]. split; [simpl; congruence|].
      intros t Ht. rewrite has_col_map_cols. apply Ha3. rewrite He3.
      apply mem_In in Ht. rewrite Ht. apply orb_true_r.
    - split; [exact Ha1|]. split; [congruence|].
      intros t Ht. apply Ha3. rewrite He3.
      apply mem_In in Ht. rewrite Ht. apply orb_true_r. }
  destruct Hsrc as [Hs1 [Hs2 Hs3]].
  assert (Hdst : wf_frame dst /\ index_size dst = index_size df).
  { unfold dst. destruct dr; [split; [exact Hwf|reflexivity]|].
    split; [apply wf_drop_cols; exact Hwf|reflexivity]. }
  destruct Hdst as [Hd1 Hd2].
  destruct (wf_copy_cols src dst tn Hs1 Hd1 ltac:(congruence) Hs3) as [H1 H2].
  split; [exact H1|congruence].
Qed.

End AggregateShape.

(** ** Closure *)

Section ClosureFacts.

Lemma assoc_map_values {A B : Type} (g : A -> B) (k : string)
  (l : list (string * A)) :
  assoc k (map (fun kv => (fst kv, g (snd kv))) l) = option_map g (assoc k l).
Proof.
  induction l as [|[k' v] l IH]; simpl; [reflexivity|].
  destruct (String.eqb k k'); [reflexivity|exact IH].
Qed.

(** The row sums, cell by cell. *)
Lemma sum_axis1_nth (n i : nat) (cols : list (list fval)) :
  Forall (fun col => length col = n) cols -> (i < n)%nat ->
  nth i (sum_axis1 n cols) NaN =
  fold_left fadd (map skipna (map (fun col => nth i col NaN) cols)) (Fin 0).
Proof.
  intros Hlen Hi. unfold sum_axis1.
  rewrite <- (nth_repeat_lt (Fin 0) NaN n i Hi) at 2.
  generalize (repeat_length (Fin 0) n). generalize (repeat (Fin 0) n) as acc.
  induction cols as [|col cols IH]; intros acc Hacc; simpl; [reflexivity|].
  apply Forall_cons in Hlen as [Hcol Hrest].
  rewrite IH; [|exact Hrest|rewrite length_zip_with, length_map; lia].
  f_equal.
  rewrite (nth_zip_with fadd _ _ i NaN NaN NaN); [|lia|rewrite length_map; lia].
  rewrite (nth_map_lt skipna _ i NaN NaN) by lia. reflexivity.
Qed.

Lemma renormalise_names (df : DataFrame) :
  col_names (renormalise df) = col_names df.
Proof.
  unfold col_names, renormalise. simpl. rewrite map_map. reflexivity.
Qed.

End ClosureFacts.

(** ** Ratios *)

(** The reference values do not reach the ratio: two calls that differ
    only in [norm_to] leave the same table when both return. *)
Lemma add_ratio_table_norm_irrelevant (E : Env) (df o1 o2 : DataFrame)
  (ratio : string) (alias : option string) (n1 n2 : norm_arg) (molecular : bool) :
  add_ratio_table E df ratio alias n1 molecular = Ok o1 ->
  add_ratio_table E df ratio alias n2 molecular = Ok o2 ->
  o1 = o2.
Proof.
  unfold add_ratio_table.
  destruct (split_on "/" ratio) as [|num [|den [|x l]]]; try discriminate.
  match goal with
  | |- rbind ?m1 _ = _ -> rbind ?m2 _ = _ -> _ =>
      destruct m1 as [v1|e1]; [|discriminate];
      destruct m2 as [v2|e2]; [|discriminate]
  end.
  cbn [rbind]. intros H1 H2. rewrite H1 in H2. injection H2 as ->. reflexivity.
Qed.

(** C2, on the code.  For the table [La = 3, Yb = 2], the ratio string
    ["La/Yb_N"] and the reference values [2] and [4], [add_ratio] resolves
    the reference values and writes the plain ratio [3 / 2] of the two
    aggregates; the ratio of the normalised quantities is [3]. *)
Lemma add_ratio_writes_plain_ratio :
  exists out col,
    returned_table
      (add_ratio Sample.env 0%nat "La/Yb_N" None (NormSeq [Fin 2; Fin 4]) false)
      [{| index_size := 1; columns := [("La", [Fin 3]); ("Yb", [Fin 2])] |}]
    = Ok out /\
    resolve_norm Sample.env (NormSeq [Fin 2; Fin 4]) "La" "Yb" = Ok (Fin 2, Fin 4) /\
    get_col out "La/Yb_N" = Some col /\
    column_eq col [Fin (3 # 2)] /\
    normalised_ratio (Fin 3) (Fin 2) (Fin 2) (Fin 4) =f= Fin 3 /\
    ~ column_eq col [normalised_ratio (Fin 3) (Fin 2) (Fin 2) (Fin 4)].
Proof.
  eexists _, _. split; [vm_compute; reflexivity|].
  split; [reflexivity|]. split; [vm_compute; reflexivity|].
  split; [repeat constructor|]. split; [vm_compute; reflexivity|].
  intros H. inversion H as [|? ? ? ? H3 _]; subst.
  vm_compute in H3. discriminate.
Qed.

(** ** Lambda coefficients *)

Section LambdaFacts.

Context (E : Env).

Lemma scatter_length (mask : list bool) (fits : list (list fval)) (blank : list fval) :
  length (scatter mask fits blank) = length mask.
Proof.
  revert fits. induction mask as [|[|] mask IH]; intros fits; simpl.
  - reflexivity.
  - rewrite IH. reflexivity.
  - destruct fits; simpl; rewrite IH; reflexivity.
Qed.

Lemma loc_cols_index_size (df sub : DataFrame) (names : list string) :
  loc_cols df names = Ok sub -> index_size sub = index_size df.
Proof.
  unfold loc_cols. destruct (mapM _ names); cbn [rbind]; [|discriminate].
  intros H. injection H as <-. reflexivity.
Qed.

Lemma rows_of_length (df : DataFrame) : length (rows_of df) = index_size df.
Proof. unfold rows_of. rewrite length_map. apply length_seq. Qed.

Lemma apply_along_axis_closures (lam : list (list fval)) (fs : list obj) :
  apply_along_axis (fun r => Ok (OFunc r)) lam = Ok fs -> fs = map OFunc lam.
Proof.
  unfold apply_along_axis. destruct lam as [|r lam]; [discriminate|].
  rewrite (mapM_total _ OFunc) by reflexivity.
  intros H. injection H as <-. reflexivity.
Qed.

End LambdaFacts.

(** C7, on the code.  When ["function"] is among [append] and
    [lambda_lnREE] returns, the returned table ends with the column
    [lambda_poly_func], one cell per row of the input; [pd.to_numeric] has
    coerced every closure in it to null, so that no cell is callable. *)
Theorem lambda_function_column_is_null (E : Env) (df : DataFrame)
  (norm_to : ree_norm) (exclude : list string) (params : option (list (list Q)))
  (degree : nat) (append : list string) (scale : string) (out : ObjFrame) :
  mem "function" append = true ->
  lambda_lnREE_table E df norm_to exclude params degree (Some append) scale = Ok out ->
  exists cols fs,
    o_columns out = cols ++ [("lambda_poly_func", fs)] /\
    length fs = index_size df /\
    Forall (fun o => o = ONum NaN /\ is_callable o = false) fs.
Proof.
  intros Happ. unfold lambda_lnREE_table. rewrite Happ.
  destruct (get_ionic_radii E _) as [radii|e]; cbn [rbind]; [|discriminate].
  destruct (loc_cols df _) as [sub|e] eqn:Hsub; cbn [rbind]; [|discriminate].
  apply loc_cols_index_size in Hsub.
  destruct (norm_abundances E norm_to _ scale) as [abund|e]; cbn [rbind]; [|discriminate].
  destruct (apply_along_axis _ _) as [fits|e]; cbn [rbind]; [|discriminate].
  destruct (negb _); [discriminate|].
  match goal with
  | |- context [apply_along_axis (fun r => Ok (OFunc r)) ?l] =>
      set (lam := l);
      destruct (apply_along_axis (fun r => Ok (OFunc r)) lam) as [fs|e] eqn:Hfs
  end; cbn [rbind]; [|discriminate].
  apply apply_along_axis_closures in Hfs. subst fs.
  intros H. injection H as <-. cbn [o_columns].
  rewrite map_app. cbn [map fst snd].
  eexists _, _. split; [reflexivity|]. split.
  - rewrite !length_map. unfold lam. rewrite length_map, scatter_length, length_map.
    rewrite rows_of_length. exact Hsub.
  - rewrite Forall_map, Forall_map. apply Forall_forall. intros r _.
    split; reflexivity.
Qed.

Lemma lambda_function_column_is_null_witness :
  exists out,
    lambda_lnREE_table Sample.env
      {| index_size := 2;
         columns := [("La", [Fin 1; NaN]); ("Ce", [Fin 1; Fin 1])] |}
      ReeNone ["Pm"; "Eu"] None 2 (Some ["function"]) "ppm" = Ok out /\
    exists cols fs,
      o_columns out = cols ++ [("lambda_poly_func", fs)] /\
      length fs = 2%nat /\
      Forall (fun o => o = ONum NaN /\ is_callable o = false) fs.
Proof.
  eexists. split; [vm_compute; reflexivity|].
  apply (lambda_function_column_is_null Sample.env
           {| index_size := 2;
              columns := [("La", [Fin 1; NaN]); ("Ce", [Fin 1; Fin 1])] |}
           ReeNone ["Pm"; "Eu"] None 2 ["function"] "ppm");
    [reflexivity | vm_compute; reflexivity].
Defined.

(** C6, on the code.  In the table below every row lacks one of the two
    selected elements, and the second row lacks both, so that no row is
    left to fit: [np.apply_along_axis] raises, and [lambda_lnREE] returns
    no table at all, neither three rows nor a null coefficient vector for
    the second row. *)
Lemma lambda_lnREE_raises_without_complete_row :
  select_ree Sample.env
    {| index_size := 3;
       columns := [("La", [Fin 1; NaN; NaN]); ("Ce", [NaN; NaN; Fin 1])] |}
    ["Pm"; "Eu"] = ["La"; "Ce"] /\
  fst (lambda_lnREE Sample.env 0%nat (ReeName "Chondrite_PON") ["Pm"; "Eu"] None 4
         (Some []) "ppm"
         [{| index_size := 3;
             columns := [("La", [Fin 1; NaN; NaN]); ("Ce", [NaN; NaN; Fin 1])] |}])
  = Err (ValueError "Cannot apply_along_axis when any iteration dimensions are 0").
Proof. split; vm_compute; reflexivity. Qed.

(** ** Tables as objects: what a call leaves in the store *)

Section StoreFacts.

Context {A B : Type}.

Lemma frame_ret (n : nat) (P : A -> Prop) (a : A) : P a -> frame n P (ret a).
Proof.
  intros Ha h Hn. simpl. repeat split; auto.
  intros a' H. injection H as <-. exact Ha.
Qed.

Lemma frame_raise (n : nat) (P : A -> Prop) (e : exn) : frame n P (raise e).
Proof. intros h Hn. simpl. repeat split; auto. discriminate. Qed.

Lemma frame_lift (n : nat) (r : res A) : frame n (fun _ => True) (lift r).
Proof. intros h Hn. simpl. repeat split; auto. Qed.

Lemma frame_weaken (n : nat) (P Q : A -> Prop) (m : M A) :
  (forall a, P a -> Q a) -> frame n P m -> frame n Q m.
Proof.
  intros HPQ Hm h Hn. destruct (Hm h Hn) as [H1 [H2 H3]].
  repeat split; auto.
Qed.

Lemma frame_bind (n : nat) (P : A -> Prop) (Q : B -> Prop) (m : M A) (k : A -> M B) :
  frame n P m -> (forall a, P a -> frame n Q (k a)) -> frame n Q (bind m k).
Proof.
  intros Hm Hk h Hn. destruct (Hm h Hn) as [H1 [H2 H3]].
  unfold bind. destruct (m h) as [[a|e] h1] eqn:Hmh; simpl in *.
  - destruct (Hk a (H3 a eq_refl) h1 H2) as [K1 [K2 K3]].
    repeat split; auto. intros l Hl. rewrite K1 by exact Hl. apply H1. exact Hl.
  - repeat split; auto. discriminate.
Qed.

End StoreFacts.

Section StoreOps.

Lemma frame_read (n : nat) (w : loc) : frame n (fun _ => True) (read w).
Proof.
  intros h Hn. unfold read. destruct (h !! w); simpl; repeat split; auto.
Qed.

Lemma frame_write (n : nat) (w : loc) (df : DataFrame) :
  (n <= w)%nat -> frame n (fun _ => True) (write w df).
Proof.
  intros Hw h Hn. unfold write. simpl. repeat split; auto.
  - intros l Hl. apply list_lookup_insert_ne. lia.
  - rewrite length_insert. exact Hn.
Qed.

Lemma frame_alloc (n : nat) (df : DataFrame) :
  frame n (fun w => (n <= w)%nat) (alloc df).
Proof.
  intros h Hn. unfold alloc. simpl. repeat split.
  - intros l Hl. apply lookup_app_l. lia.
  - rewrite length_app. lia.
  - intros a H. injection H as <-. exact Hn.
Qed.

End StoreOps.

Section OperationFrames.

Context (E : Env).

Lemma aggregate_element_frame (n : nat) (w : loc) (to : target) (suffix : string)
  (logdata renorm molecular : bool) :
  (n <= w)%nat ->
  frame n (fun w' => (n <= w')%nat)
        (aggregate_element E w to suffix logdata renorm molecular).
Proof.
  intros Hw. unfold aggregate_element.
  eapply frame_bind; [apply frame_read|]. intros t _.
  eapply frame_bind; [apply frame_lift|]. intros r _.
  eapply frame_bind with (P := fun w' => (n <= w')%nat).
  - destruct (fst r).
    + eapply frame_bind; [apply frame_write; exact Hw|].
      intros _ _. apply frame_ret. exact Hw.
    + apply frame_alloc.
  - intros w' Hw'. destruct renorm; [apply frame_alloc|apply frame_ret; exact Hw'].
Qed.

Lemma add_ratio_frame (n : nat) (w : loc) (ratio : string) (alias : option string)
  (norm_to : norm_arg) (molecular : bool) :
  (n <= w)%nat ->
  frame n (fun w' => (n <= w')%nat) (add_ratio E w ratio alias norm_to molecular).
Proof.
  intros Hw. unfold add_ratio.
  eapply frame_bind; [apply frame_read|]. intros t _.
  eapply frame_bind; [apply frame_lift|]. intros t' _.
  eapply frame_bind; [apply frame_write; exact Hw|]. intros _ _.
  apply frame_ret. exact Hw.
Qed.

Lemma aggregate_all_frame (n : nat) (items : list string) (w : loc)
  (logdata molecular : bool) :
  (n <= w)%nat ->
  frame n (fun w' => (n <= w')%nat) (aggregate_all E items w logdata molecular).
Proof.
  revert w. induction items as [|item items IH]; intros w Hw; simpl.
  - apply frame_ret. exact Hw.
  - eapply frame_bind; [apply aggregate_element_frame; exact Hw|].
    intros w' Hw'. apply IH. exact Hw'.
Qed.

Lemma add_ratios_frame (n : nat) (rs : list string) (w : loc) (molecular : bool) :
  (n <= w)%nat ->
  frame n (fun w' => (n <= w')%nat) (add_ratios E rs w molecular).
Proof.
  revert w. induction rs as [|r rs IH]; intros w Hw; simpl.
  - apply frame_ret. exact Hw.
  - eapply frame_bind; [apply add_ratio_frame; exact Hw|].
    intros w' Hw'. apply IH. exact Hw'.
Qed.

Lemma iron_section_frame (n : nat) (fe : list target) (w : loc)
  (logdata molecular : bool) :
  (n <= w)%nat ->
  frame n (fun w' => (n <= w')%nat) (iron_section E fe w logdata molecular).
Proof.
  intros Hw. unfold iron_section. destruct (1 <? length fe)%nat.
  - apply frame_raise.
  - destruct fe as [|t fe]; [apply frame_ret; exact Hw|].
    apply aggregate_element_frame. exact Hw.
Qed.

Lemma finish_frame (n : nat) (w : loc) (gc output_columns : list string)
  (renorm : bool) :
  (n <= w)%nat ->
  frame n (fun w' => (n <= w')%nat) (finish E w gc output_columns renorm).
Proof.
  intros Hw. unfold finish.
  eapply frame_bind; [apply frame_read|]. intros t _.
  destruct (List.filter _ gc); [|apply frame_raise].
  eapply frame_bind with (P := fun _ => True).
  - destruct renorm; [|apply frame_ret; exact I].
    eapply frame_bind; [apply frame_lift|]. intros sub _.
    eapply frame_bind; [apply frame_write; exact Hw|]. intros _ _.
    apply frame_ret. exact I.
  - intros t' _. eapply frame_bind; [apply frame_lift|]. intros out _.
    apply frame_alloc.
Qed.

(** [convert_chemistry] works on a copy: every table that was in the store
    when it was called is still there, unchanged, when it returns or
    raises. *)
Lemma convert_chemistry_frame (h : store) (input_df : loc) (to : list request)
  (logdata renorm molecular : bool) :
  frame (length h) (fun w' => (length h <= w')%nat)
        (convert_chemistry E input_df to logdata renorm molecular).
Proof.
  unfold convert_chemistry.
  eapply frame_bind; [apply frame_read|]. intros t _.
  eapply frame_bind; [apply frame_alloc|]. intros w Hw.
  eapply frame_bind; [apply frame_lift|]. intros ratios _.
  eapply frame_bind; [apply aggregate_all_frame; exact Hw|]. intros w1 Hw1.
  eapply frame_bind; [apply iron_section_frame; exact Hw1|]. intros w2 Hw2.
  eapply frame_bind; [apply add_ratios_frame; exact Hw2|]. intros w3 Hw3.
  apply finish_frame. exact Hw3.
Qed.

End OperationFrames.

(** C10, as the code has it.  [convert_chemistry] and [lambda_lnREE] leave
    the table they are passed as it was, whether they return or raise.
    [add_ratio] and [add_MgNo] either raise and leave the store as it was,
    or return the very object they were passed, after writing the new
    column into it: the object then holds the column under the name of the
    ratio (the alias when one is given) or of the magnesium number, its
    other columns are as they were, and so is every other object. *)
Theorem input_table_after_call (E : Env) (h : store) (r : loc) :
  (forall to logdata renorm molecular,
     snd (convert_chemistry E r to logdata renorm molecular h) !! r = h !! r) /\
  (forall norm_to exclude params degree append scale,
     snd (lambda_lnREE E r norm_to exclude params degree append scale h) = h) /\
  (forall ratio alias norm_to molecular,
     let name := match alias with
                 | None | Some EmptyString => ratio
                 | Some a => a
                 end in
     (exists t col,
        h !! r = Some t /\
        add_ratio_table E t ratio alias norm_to molecular = Ok (set_col t name col) /\
        add_ratio E r ratio alias norm_to molecular h
        = (Ok r, <[r := set_col t name col]> h) /\
        get_col (set_col t name col) name = Some col /\
        (forall c, c <> name -> get_col (set_col t name col) c = get_col t c))
     \/ (exists e, add_ratio E r ratio alias norm_to molecular h = (Err e, h))) /\
  (forall molecular use_total_approx approx name,
     (exists t col,
        h !! r = Some t /\
        add_MgNo_table E t molecular use_total_approx approx name
        = Ok (set_col t name col) /\
        add_MgNo E r molecular use_total_approx approx name h
        = (Ok r, <[r := set_col t name col]> h) /\
        get_col (set_col t name col) name = Some col /\
        (forall c, c <> name -> get_col (set_col t name col) c = get_col t c))
     \/ (exists e, add_MgNo E r molecular use_total_approx approx name h = (Err e, h))).
Proof.
  split; [|split; [|split]].
  - intros to logdata renorm molecular.
    destruct (Nat.lt_ge_cases r (length h)) as [Hlt|Hge].
    + apply (convert_chemistry_frame E h r to logdata renorm molecular h (le_n _)).
      exact Hlt.
    + unfold convert_chemistry, bind, read.
      rewrite (lookup_ge_None_2 h r) by lia. simpl. apply lookup_ge_None_2. lia.
  - intros norm_to exclude params degree append scale.
    unfold lambda_lnREE, bind, read, lift.
    destruct (h !! r); reflexivity.
  - intros ratio alias norm_to molecular name.
    unfold add_ratio, bind, read, lift, write, ret.
    destruct (h !! r) as [t|]; [|right; eexists; reflexivity].
    destruct (add_ratio_table E t ratio alias norm_to molecular) as [t'|e] eqn:Ht;
      [|right; exists e; reflexivity].
    left. assert (Hwritten := Ht). unfold add_ratio_table in Ht.
    destruct (split_on "/" ratio) as [|num [|den [|x l]]]; try discriminate.
    match type of Ht with rbind ?m _ = _ => destruct m as [nn|e] end;
      cbn [rbind] in Ht; [|discriminate].
    match type of Ht with rbind ?m _ = _ => destruct m as [numsum|e] end;
      cbn [rbind] in Ht; [|discriminate].
    match type of Ht with rbind ?m _ = _ => destruct m as [densum|e] end;
      cbn [rbind] in Ht; [|discriminate].
    injection Ht as <-. fold name. fold name in Hwritten.
    eexists t, _. split; [reflexivity|]. split; [exact Hwritten|].
    split; [reflexivity|]. split; [apply get_col_set_col_eq|].
    intros c Hc. apply get_col_set_col_ne. exact Hc.
  - intros molecular use_total_approx approx name.
    unfold add_MgNo, bind, read, lift, write, ret.
    destruct (h !! r) as [t|]; [|right; eexists; reflexivity].
    destruct (add_MgNo_table E t molecular use_total_approx approx name) as [t'|e] eqn:Ht;
      [|right; exists e; reflexivity].
    left. assert (Hwritten := Ht). unfold add_MgNo_table in Ht.
    match type of Ht with rbind ?m _ = _ => destruct m as [mg|e] end;
      cbn [rbind] in Ht; [|discriminate].
    match type of Ht with rbind ?m _ = _ => destruct m as [fe|e] end;
      cbn [rbind] in Ht; [|discriminate].
    match type of Ht with rbind ?m _ = _ => destruct m as [mgfe|e] end;
      cbn [rbind] in Ht; [|discriminate].
    destruct (zip_with _ (fst mgfe) (snd mgfe)); injection Ht as <-;
      (eexists t, _; split; [reflexivity|]; split; [exact Hwritten|];
       split; [reflexivity|]; split; [apply get_col_set_col_eq|];
       intros c Hc; apply get_col_set_col_ne; exact Hc).
Qed.

(** C10, as the claim has it, fails: after [add_ratio] the table that was
    passed in holds one column more than before, and it is the table that
    is returned. *)
Lemma add_ratio_writes_into_input :
  exists h',
    add_ratio Sample.env 0%nat "MgO/FeO" None NormNone false [Sample.rock]
    = (Ok 0%nat, h') /\
    [Sample.rock] !! 0%nat = Some Sample.rock /\
    (col_names <$> h' !! 0%nat) = Some ["Depth"; "MgO"; "FeO"; "Fe2O3"; "MgO/FeO"] /\
    h' !! 0%nat <> [Sample.rock] !! 0%nat.
Proof.
  eexists. split; [vm_compute; reflexivity|].
  split; [reflexivity|]. split; [reflexivity|].
  intros H. apply (f_equal (fmap col_names)) in H. vm_compute in H. discriminate.
Qed.

(** The same holds of [add_MgNo], and of [aggregate_element] when no
    column is dropped. *)
Lemma add_MgNo_writes_into_input :
  exists h',
    add_MgNo Sample.env 0%nat false false (Fin (1 # 10)) "Mg#" [Sample.rock]
    = (Ok 0%nat, h') /\
    (col_names <$> h' !! 0%nat) = Some ["Depth"; "MgO"; "FeO"; "Fe2O3"; "Mg#"].
Proof. eexists. split; vm_compute; reflexivity. Qed.

Lemma aggregate_element_writes_into_input :
  exists h',
    aggregate_element Sample.env 0%nat (TStr "MgO") "T" false false false
      [{| index_size := 1; columns := [("Mg", [Fin 5])] |}]
    = (Ok 0%nat, h') /\
    (col_names <$> h' !! 0%nat) = Some ["Mg"; "MgO"].
Proof. eexists. split; vm_compute; reflexivity. Qed.

(** With [use_total_approx] the call of [aggregate_element] inside
    [add_MgNo] binds [to] twice and raises. *)
Lemma add_MgNo_total_approx_raises (E : Env) (h : store) (r : loc) (t : DataFrame)
  (molecular : bool) (approx : fval) (name : string) (mg : Series) :
  h !! r = Some t ->
  elemental_sum E t (Some (CName "Mg")) None "T" false molecular = Ok mg ->
  add_MgNo E r molecular true approx name h
  = (Err (TypeError "aggregate_element() got multiple values for argument 'to'"), h).
Proof.
  intros Hr Hmg. unfold add_MgNo, bind, read, lift. rewrite Hr.
  unfold add_MgNo_table. rewrite Hmg. reflexivity.
Qed.

(** ** The iron redox section *)

(** C9, as the code has it.  When the aggregation of the other requested
    columns has raised nothing and [get_fe] -- the coupled dictionaries
    whose keys are all iron species when there is one, else the requested
    iron names that are not present -- holds more than one target,
    [convert_chemistry] raises [NotImplementedError] with its fixed
    message, and returns no table. *)
Theorem convert_chemistry_multiple_iron (E : Env) (h h' : store) (r df' : loc)
  (t : DataFrame) (to : list request) (logdata renorm molecular : bool)
  (ratios : list string) :
  h !! r = Some t ->
  new_ratios t to = Ok ratios ->
  aggregate_all E (aggregate_items E t to ratios) (length h) logdata molecular
                (h ++ [t]) = (Ok df', h') ->
  (1 < length (get_fe E t to ratios))%nat ->
  fst (convert_chemistry E r to logdata renorm molecular h)
  = Err (NotImplementedError "Need to specify speciation for >1 Fe components.").
Proof.
  intros Hr Hratios Hagg Hfe.
  unfold convert_chemistry, bind, read, alloc, lift.
  rewrite Hr, Hratios, Hagg. unfold iron_section.
  apply Nat.ltb_lt in Hfe. rewrite Hfe. reflexivity.
Qed.

Lemma convert_chemistry_multiple_iron_witness :
  fst (convert_chemistry Sample.env 0%nat [RName "FeO"; RName "Fe2O3"]
         false false false
         [{| index_size := 1; columns := [("FeOT", [Fin 10])] |}])
  = Err (NotImplementedError "Need to specify speciation for >1 Fe components.").
Proof.
  apply (convert_chemistry_multiple_iron Sample.env
           [{| index_size := 1; columns := [("FeOT", [Fin 10])] |}]
           [{| index_size := 1; columns := [("FeOT", [Fin 10])] |};
            {| index_size := 1; columns := [("FeOT", [Fin 10])] |}]
           0%nat 1%nat
           {| index_size := 1; columns := [("FeOT", [Fin 10])] |}
           [RName "FeO"; RName "Fe2O3"] false false false []);
    [reflexivity | reflexivity | reflexivity | vm_compute; lia].
Defined.

(** C9, as the claim has it, fails: two iron names that are not present
    are requested, and the error that is raised names neither. *)
Lemma multiple_iron_error_names_no_target :
  get_fe Sample.env {| index_size := 1; columns := [("FeOT", [Fin 10])] |}
         [RName "FeO"; RName "Fe2O3"] [] = [TStr "FeO"; TStr "Fe2O3"] /\
  ~ (exists msg,
       fst (convert_chemistry Sample.env 0%nat [RName "FeO"; RName "Fe2O3"]
              false false false
              [{| index_size := 1; columns := [("FeOT", [Fin 10])] |}])
       = Err (NotImplementedError msg) /\
       names_targets msg ["FeO"; "Fe2O3"]).
Proof.
  split; [reflexivity|].
  intros [msg [Hmsg Hnames]]. vm_compute in Hmsg. injection Hmsg as <-.
  inversion Hnames as [|? ? HFeO _]; subst. vm_compute in HFeO. discriminate.
Qed.

(** A coupled iron dictionary replaces the missing iron names: two such
    names are requested, no multiple-iron error is raised, and the call
    ends on the columns it could not attain. *)
Lemma coupled_iron_overrides_missing_names :
  get_fe_names Sample.env {| index_size := 1; columns := [("Fe2O3T", [Fin 1])] |}
    [RName "Fe"; RName "FeOT";
     RDict [("FeO", Fin (9 # 10)); ("Fe2O3", Fin (1 # 10))]] [] = ["Fe"; "FeOT"] /\
  fst (convert_chemistry Sample.env 0%nat
         [RName "Fe"; RName "FeOT";
          RDict [("FeO", Fin (9 # 10)); ("Fe2O3", Fin (1 # 10))]]
         false false false
         [{| index_size := 1; columns := [("Fe2O3T", [Fin 1])] |}])
  = Err (ColumnsNotAttained ["Fe"; "FeOT"]).
Proof. split; vm_compute; reflexivity. Qed.

(** ** What [lambda_lnREE] returns when it returns *)

Section LambdaShape.

Context (E : Env).

Lemma scatter_nth_masked (mask : list bool) (fits : list (list fval))
  (blank : list fval) (i : nat) :
  nth i mask false = true -> nth i (scatter mask fits blank) blank = blank.
Proof.
  revert fits i. induction mask as [|b mask IH]; intros fits [|i] H; simpl in *;
    try discriminate.
  - subst b. reflexivity.
  - destruct b; [apply IH; exact H|].
    destruct fits; simpl; apply IH; exact H.
Qed.

Lemma null_in_row_nth (sub : DataFrame) (i : nat) :
  (i < index_size sub)%nat ->
  nth i (map (existsb isnull) (rows_of sub)) false = existsb isnull (row sub i).
Proof.
  intros Hi. unfold rows_of.
  rewrite (nth_map_lt _ _ i false []) by (rewrite length_map, length_seq; exact Hi).
  rewrite (nth_map_lt _ _ i [] 0%nat) by (rewrite length_seq; exact Hi).
  rewrite seq_nth by exact Hi. reflexivity.
Qed.

Lemma blank_cell (degree j : nat) :
  nth j (map ONum (repeat NaN degree)) (ONum NaN) = ONum NaN.
Proof.
  change (ONum NaN) with (ONum NaN) at 1.
  rewrite (map_nth ONum). rewrite nth_repeat. reflexivity.
Qed.

Lemma columns_of_rows_spec {A : Type} (labels : list string)
  (rows : list (list A)) (dflt : A) (P : string * list A -> Prop) :
  (forall j l, P (l, map (fun r => nth j r dflt) rows)) ->
  Forall P (columns_of_rows labels rows dflt).
Proof.
  intros H. unfold columns_of_rows. apply Forall_forall. intros x Hx.
  apply elem_of_lookup_imap in Hx as [j [l [-> _]]]. apply H.
Qed.

(** The table of coefficients before the function column is attached and
    the cells are coerced: one cell per row in every column, and nulls
    in the rows that were not fitted. *)
Lemma coefficient_columns (sub : DataFrame) (fits : list (list fval))
  (degree : nat) (labels : list string) :
  let blank := repeat NaN degree in
  let lam := map (fun r => if forallb eqz r then blank else r)
                 (scatter (map (existsb isnull) (rows_of sub)) fits blank) in
  length lam = index_size sub /\
  Forall (fun kv : string * list obj =>
            length (snd kv) = index_size sub /\
            forall i, (i < index_size sub)%nat ->
                      existsb isnull (row sub i) = true ->
                      nth i (snd kv) (ONum NaN) = ONum NaN)
         (columns_of_rows labels (map (map ONum) lam) (ONum NaN)).
Proof.
  intros blank lam.
  assert (Hlen : length lam = index_size sub).
  { unfold lam. rewrite length_map, scatter_length, length_map. apply rows_of_length. }
  split; [exact Hlen|].
  apply columns_of_rows_spec. intros j l. simpl. split.
  - rewrite !length_map. exact Hlen.
  - intros i Hi Hnull.
    rewrite (nth_map_lt _ _ i (ONum NaN) (map ONum blank))
      by (rewrite length_map; lia).
    rewrite (nth_map_lt _ _ i (map ONum blank) blank) by lia.
    unfold lam.
    rewrite (nth_map_lt _ _ i blank blank)
      by (rewrite scatter_length, length_map, rows_of_length; exact Hi).
    rewrite scatter_nth_masked by (rewrite null_in_row_nth; assumption).
    destruct (forallb eqz blank); apply blank_cell.
Qed.

(** Whenever [lambda_lnREE] returns a table, the table has the rows of the
    input, and a row with a null among the selected elements -- all the
    more a row whose selected values are all null -- holds nulls only. *)
Lemma lambda_lnREE_table_rows (df sub : DataFrame) (norm_to : ree_norm)
  (exclude : list string) (params : option (list (list Q))) (degree : nat)
  (append : option (list string)) (scale : string) (out : ObjFrame) :
  lambda_lnREE_table E df norm_to exclude params degree append scale = Ok out ->
  loc_cols df (select_ree E df exclude) = Ok sub ->
  o_index_size out = index_size df /\
  Forall (fun kv : string * list obj =>
            length (snd kv) = index_size df /\
            forall i, (i < index_size df)%nat ->
                      existsb isnull (row sub i) = true ->
                      nth i (snd kv) (ONum NaN) = ONum NaN)
         (o_columns out).
Proof.
  intros Hout Hsub. unfold lambda_lnREE_table in Hout.
  destruct (get_ionic_radii E _) as [radii|e]; cbn [rbind] in Hout; [|discriminate].
  rewrite Hsub in Hout. cbn [rbind] in Hout.
  pose proof (loc_cols_index_size _ _ _ Hsub) as Hn.
  destruct (norm_abundances E norm_to _ scale) as [abund|e]; cbn [rbind] in Hout;
    [|discriminate].
  destruct (apply_along_axis _ _) as [fits|e]; cbn [rbind] in Hout; [|discriminate].
  destruct (negb _); [discriminate|].
  match type of Hout with
  | context [columns_of_rows ?ls (map (map ONum) ?l) _] =>
      pose proof (coefficient_columns sub fits
                    (match params with None => degree | Some p => length p end) ls)
        as [Hlam Hcols];
      set (lam := l) in *; set (labels := ls) in *
  end.
  assert (Hcoerce : forall cols : list (string * list obj),
            Forall (fun kv : string * list obj =>
                      length (snd kv) = index_size sub /\
                      forall i, (i < index_size sub)%nat ->
                                existsb isnull (row sub i) = true ->
                                nth i (snd kv) (ONum NaN) = ONum NaN) cols ->
            Forall (fun kv : string * list obj =>
                      length (snd kv) = index_size df /\
                      forall i, (i < index_size df)%nat ->
                                existsb isnull (row sub i) = true ->
                                nth i (snd kv) (ONum NaN) = ONum NaN)
                   (map (fun kv => (fst kv, map to_numeric (snd kv))) cols)).
  { intros cols Hc. rewrite Forall_map. eapply Forall_impl; [exact Hc|].
    intros kv [Hl Hnull]. simpl. split; [rewrite length_map; congruence|].
    intros i Hi Hrow.
    change (ONum NaN) with (to_numeric (ONum NaN)) at 1.
    rewrite map_nth. rewrite Hnull; [reflexivity|lia|exact Hrow]. }
  assert (Hfunc : length (map to_numeric (map OFunc lam)) = index_size sub /\
                  forall i, nth i (map to_numeric (map OFunc lam)) (ONum NaN) = ONum NaN).
  { split; [rewrite !length_map; exact Hlam|].
    intros i. rewrite map_map. simpl.
    destruct (Nat.lt_ge_cases i (length lam)) as [Hi|Hi].
    - rewrite (nth_map_lt _ _ i (ONum NaN) []) by exact Hi. reflexivity.
    - apply nth_overflow. rewrite length_map. exact Hi. }
  destruct append as [a|].
  - destruct (mem "function" a).
    + destruct (apply_along_axis (fun r => Ok (OFunc r)) lam) as [fs|e] eqn:Hfs;
        cbn [rbind] in Hout; [|discriminate].
      injection Hout as <-. cbn [o_index_size o_columns]. split; [reflexivity|].
      rewrite map_app. apply Forall_app. split; [apply Hcoerce; exact Hcols|].
      cbn [map fst snd].
      apply apply_along_axis_closures in Hfs. subst fs.
      destruct Hfunc as [Hl Hnull].
      constructor; [|constructor]. simpl. split; [congruence|].
      intros i _ _. apply Hnull.
    + cbn [rbind] in Hout. injection Hout as <-. cbn [o_index_size o_columns].
      split; [reflexivity|]. apply Hcoerce. exact Hcols.
  - cbn [rbind] in Hout. injection Hout as <-. cbn [o_index_size o_columns].
    split; [reflexivity|]. apply Hcoerce. exact Hcols.
Qed.

End LambdaShape.

(** * Further properties *)

(** ** Conversion factors: composition and rejection *)

Section FactorFacts.

Context (E : Env).

Lemma Qdiv_pos (a b : Q) : 0 < a -> 0 < b -> 0 < a / b.
Proof.
  intros Ha Hb. unfold Qdiv. apply Qmult_lt_0_compat; [exact Ha|].
  apply Qinv_lt_0_compat. exact Hb.
Qed.

Lemma Qpos_neq (a : Q) : 0 < a -> ~ a == 0.
Proof. intros Ha H0. rewrite H0 in Ha. apply (Qlt_irrefl 0 Ha). Qed.

(** The converter and the factor between two forms of one cation, in
    closed form. *)
Lemma conversion_factor (A B : string) (molecular : bool)
  (fa fb : Formula) (e : string) (a b : Q) :
  pt_formula E A = Some fa -> pt_formula E B = Some fb ->
  wf_formula fa -> wf_formula fb ->
  non_oxygen (atoms fa) = [(e, a)] -> non_oxygen (atoms fb) = [(e, b)] ->
  exists c,
    oxide_conversion E A B molecular = Ok c /\
    factor c = Ok (if molecular then a / b else a / b * mass fb / mass fa) /\
    0 < (if molecular then a / b else a / b * mass fb / mass fa).
Proof.
  intros HA HB Hwa Hwb Ha Hb.
  assert (Hapos : 0 < a).
  { apply (non_oxygen_count_pos fa e); [exact Hwa|]. rewrite Ha. left. reflexivity. }
  assert (Hbpos : 0 < b).
  { apply (non_oxygen_count_pos fb e); [exact Hwb|]. rewrite Hb. left. reflexivity. }
  destruct Hwa as [_ Hma]. destruct Hwb as [_ Hmb].
  eexists. split; [apply (oxide_conversion_ok E A B molecular fa fb e a b); assumption|].
  split.
  - rewrite factor_ok by exact Hma. reflexivity.
  - destruct molecular.
    + apply Qdiv_pos; assumption.
    + apply Qdiv_pos; [|exact Hma].
      apply Qmult_lt_0_compat; [apply Qdiv_pos; assumption|exact Hmb].
Qed.

Lemma inf_signed_neg (q : Q) : q < 0 -> inf_signed q = NInf.
Proof.
  intros H. unfold inf_signed.
  destruct (Qlt_bool 0 q) eqn:Hb.
  - apply Qlt_bool_iff in Hb. exfalso. apply (Qlt_irrefl 0).
    eapply Qlt_trans; eassumption.
  - destruct (Qlt_bool q 0) eqn:Hc; [reflexivity|].
    apply Qlt_bool_false in Hc. exfalso. apply (Qlt_not_le _ _ H Hc).
Qed.

(** Scaling a cell by two positive factors in turn is scaling it by their
    product. *)
Lemma fmul_fmul_pos (v : fval) (f g k : Q) :
  0 < f -> 0 < g -> f * g == k ->
  fmul (fmul v (Fin f)) (Fin g) =f= fmul v (Fin k).
Proof.
  intros Hf Hg Hk.
  assert (Hkpos : 0 < k) by (rewrite <- Hk; apply Qmult_lt_0_compat; assumption).
  destruct v as [x| | |]; simpl.
  - rewrite <- Hk. ring.
  - rewrite (inf_signed_pos f Hf), (inf_signed_pos k Hkpos). simpl.
    rewrite (inf_signed_pos g Hg). exact I.
  - rewrite (inf_signed_pos f Hf), (inf_signed_pos k Hkpos). simpl.
    rewrite (inf_signed_pos g Hg). exact I.
  - exact I.
Qed.

End FactorFacts.

(** X1. In exact arithmetic, conversions compose: for three forms [A],
    [B] and [C] of one cation, the factor from [A] to [C] is the product of
    the factors from [A] to [B] and from [B] to [C], so that converting a
    series from [A] to [B] and the result from [B] to [C] gives, cell by
    cell, what converting it from [A] to [C] gives, for either value of the
    molecular flag.  The cells of this development are exact rationals:
    the rounding of each product, by which the two results can differ in
    their last digits, and overflow are outside the statement. *)
Theorem conversions_compose (E : Env) (A B C : string) (molecular : bool)
  (fa fb fc : Formula) (e : string) (a b c : Q) (ser : list fval) :
  pt_formula E A = Some fa -> pt_formula E B = Some fb -> pt_formula E C = Some fc ->
  wf_formula fa -> wf_formula fb -> wf_formula fc ->
  non_oxygen (atoms fa) = [(e, a)] -> non_oxygen (atoms fb) = [(e, b)] ->
  non_oxygen (atoms fc) = [(e, c)] ->
  exists sAB sBC sAC,
    apply_conversion E A B molecular ser = Ok sAB /\
    apply_conversion E B C molecular sAB = Ok sBC /\
    apply_conversion E A C molecular ser = Ok sAC /\
    column_eq sBC sAC.
Proof.
  intros HA HB HC Hwa Hwb Hwc Ha Hb Hc.
  destruct (conversion_factor E A B molecular fa fb e a b HA HB Hwa Hwb Ha Hb)
    as [cab [Hcab [Hfab Hpab]]].
  destruct (conversion_factor E B C molecular fb fc e b c HB HC Hwb Hwc Hb Hc)
    as [cbc [Hcbc [Hfbc Hpbc]]].
  destruct (conversion_factor E A C molecular fa fc e a c HA HC Hwa Hwc Ha Hc)
    as [cac [Hcac [Hfac Hpac]]].
  eexists _, _, _.
  split; [apply (apply_conversion_factor E A B molecular cab _ ser Hcab Hfab)|].
  split; [apply (apply_conversion_factor E B C molecular cbc _ _ Hcbc Hfbc)|].
  split; [apply (apply_conversion_factor E A C molecular cac _ ser Hcac Hfac)|].
  assert (Hprod : (if molecular then a / b else a / b * mass fb / mass fa)
                  * (if molecular then b / c else b / c * mass fc / mass fb)
                  == (if molecular then a / c else a / c * mass fc / mass fa)).
  { assert (Hb0 : ~ b == 0).
    { apply Qpos_neq. apply (non_oxygen_count_pos fb e); [exact Hwb|].
      rewrite Hb. left. reflexivity. }
    assert (Hc0 : ~ c == 0).
    { apply Qpos_neq. apply (non_oxygen_count_pos fc e); [exact Hwc|].
      rewrite Hc. left. reflexivity. }
    assert (Hma : ~ mass fa == 0) by (apply Qpos_neq; apply Hwa).
    assert (Hmb : ~ mass fb == 0) by (apply Qpos_neq; apply Hwb).
    destruct molecular; field; auto. }
  unfold column_eq. induction ser as [|v ser IH]; simpl; constructor; [|exact IH].
  apply fmul_fmul_pos; assumption.
Qed.

Lemma conversions_compose_witness :
  exists sAB sBC sAC,
    apply_conversion Sample.env "Fe2O3" "FeO" false [Fin 2; NaN; PInf] = Ok sAB /\
    apply_conversion Sample.env "FeO" "Fe" false sAB = Ok sBC /\
    apply_conversion Sample.env "Fe2O3" "Fe" false [Fin 2; NaN; PInf] = Ok sAC /\
    column_eq sBC sAC.
Proof.
  apply (conversions_compose Sample.env "Fe2O3" "FeO" "Fe" false
           {| atoms := [("Fe", 2); ("O", 3)]; mass := 159687 # 1000 |}
           {| atoms := [("Fe", 1); ("O", 1)]; mass := 71844 # 1000 |}
           {| atoms := [("Fe", 1)]; mass := 55845 # 1000 |}
           "Fe" 2 1 1);
    try reflexivity; wf_sample.
Defined.

(** X2. [oxide_conversion] raises its [ValueError] exactly on incompatible
    compounds: for two names that periodictable can read, the call raises
    "Incompatible compounds" if and only if the two forms do not each hold
    exactly one non-oxygen element, the same in both. *)
Theorem oxide_conversion_rejects (E : Env) (A B : string) (molecular : bool)
  (fa fb : Formula) :
  pt_formula E A = Some fa -> pt_formula E B = Some fb ->
  (oxide_conversion E A B molecular
   = Err (IncompatibleCompounds (map fst (non_oxygen (atoms fa)))
                                (map fst (non_oxygen (atoms fb))))
   <-> ~ exists e a b, non_oxygen (atoms fa) = [(e, a)] /\
                       non_oxygen (atoms fb) = [(e, b)]).
Proof.
  intros HA HB. unfold oxide_conversion, resolve. rewrite HA, HB. cbn [rbind].
  destruct (non_oxygen (atoms fa)) as [|[ea a] [|x la]];
    destruct (non_oxygen (atoms fb)) as [|[eb b] [|y lb]]; cbn -[Qeq_bool];
    try (split; [intros _ [e [a' [b' [H1 H2]]]]; discriminate | reflexivity]);
    try (rewrite andb_false_r; cbn [andb];
         split; [intros _ [e [a' [b' [H1 H2]]]]; discriminate | reflexivity]).
  unfold same_keys, mem. cbn -[Qeq_bool].
  destruct (String.eqb_spec ea eb) as [->|Hne]; cbn -[Qeq_bool].
  - rewrite String.eqb_refl. cbn -[Qeq_bool]. split.
    + intros H. destruct (Qeq_bool b 0); discriminate.
    + intros H. exfalso. apply H. exists eb, a, b. split; reflexivity.
  - split; [|reflexivity].
    intros _ [e [a' [b' [H1 H2]]]]. injection H1 as H1 _. injection H2 as H2 _.
    congruence.
Qed.

Lemma oxide_conversion_rejects_witness :
  oxide_conversion Sample.env "FeO" "MgO" false
  = Err (IncompatibleCompounds ["Fe"] ["Mg"])
  <-> ~ exists e a b,
        non_oxygen [("Fe", 1); ("O", 1)] = [(e, a)] /\
        non_oxygen [("Mg", 1); ("O", 1)] = [(e, b)].
Proof.
  apply (oxide_conversion_rejects Sample.env "FeO" "MgO" false
           {| atoms := [("Fe", 1); ("O", 1)]; mass := 71844 # 1000 |}
           {| atoms := [("Mg", 1); ("O", 1)]; mass := 40304 # 1000 |});
    reflexivity.
Defined.

(** ** The elemental sum: what it returns and what it depends on *)

Section SumInvariants.

Context (E : Env).

Lemma null_nonpositive_positive (q : Q) : positive_or_nan (null_nonpositive (Fin q)).
Proof.
  unfold null_nonpositive. simpl.
  destruct (Qle_bool q 0) eqn:Hq; [left; reflexivity|].
  right. exists q. split; [reflexivity|].
  apply Qnot_le_lt. intros Hle. apply Qle_bool_iff in Hle. congruence.
Qed.

Lemma mem_has_assoc {A : Type} (k : string) (l : list (string * A)) :
  mem k (map fst l) = match assoc k l with Some _ => true | None => false end.
Proof.
  unfold mem. induction l as [|[k' v] l IH]; simpl; [reflexivity|].
  destruct (String.eqb k k'); simpl; [reflexivity|exact IH].
Qed.

Lemma has_col_get_col (df : DataFrame) (c : string) :
  has_col df c = match get_col df c with Some _ => true | None => false end.
Proof. unfold has_col, col_names, get_col. apply mem_has_assoc. Qed.

Lemma filter_ext_in {A : Type} (f g : A -> bool) (l : list A) :
  (forall x, In x l -> f x = g x) -> List.filter f l = List.filter g l.
Proof.
  induction l as [|x l IH]; intros H; simpl; [reflexivity|].
  rewrite (H x (or_introl eq_refl)).
  rewrite IH; [reflexivity|]. intros y Hy. apply H. right. exact Hy.
Qed.

Lemma In_dedup_names (x : string) (xs : list string) :
  In x (dedup_names xs) -> In x xs.
Proof.
  revert x. induction xs as [|y xs IH]; intros x; simpl; [tauto|].
  intros [->|H]; [left; reflexivity|].
  apply filter_In in H as [H _]. right. apply IH. exact H.
Qed.

Lemma mapM_ext_in {A B : Type} (f g : A -> res B) (l : list A) :
  (forall x, In x l -> f x = g x) -> mapM f l = mapM g l.
Proof.
  induction l as [|x l IH]; intros H; simpl; [reflexivity|].
  rewrite (H x (or_introl eq_refl)).
  rewrite IH; [reflexivity|]. intros y Hy. apply H. right. exact Hy.
Qed.

End SumInvariants.

(** X3. Without [to], every cell [elemental_sum] returns is null or
    greater than zero: never zero, never negative, never minus infinity,
    whatever the cells of the table hold.  (A row sum that overflows is
    plus infinity and is kept; on the exact cells of this development the
    sum of finite cells is finite.) *)
Theorem elemental_sum_positive_or_null (E : Env) (df : DataFrame)
  (c : option component) (suffix : string) (logdata molecular : bool)
  (agg : Series) :
  elemental_sum E df c None suffix logdata molecular = Ok agg ->
  Forall positive_or_null (values agg).
Proof.
  intros Hagg.
  apply (Forall_impl positive_or_nan);
    [|intros v [->|[q [-> Hq]]];
      [left; reflexivity|right; right; exists q; split; [reflexivity|exact Hq]]].
  revert Hagg. unfold elemental_sum.
  destruct (resolve_cation E c suffix) as [cation|e]; cbn [rbind]; [|discriminate].
  destruct (candidate_species E df cation suffix) as [|s0 rest].
  - cbn [rbind]. intros H. injection H as <-. simpl.
    apply Forall_repeat. left. reflexivity.
  - destruct (loc_cols df (s0 :: rest)) as [subdf|e]; cbn [rbind]; [|discriminate].
    destruct (convert_candidates E _ cation suffix molecular) as [converted|e];
      cbn [rbind]; [|discriminate].
    intros H. injection H as <-. simpl.
    rewrite Forall_map.
    eapply Forall_impl.
    + apply sum_axis1_finite. rewrite Forall_map. rewrite Forall_forall.
      intros kv _. apply zero_invalid_finite.
    + intros v Hv. destruct v; simpl in Hv; try discriminate.
      apply null_nonpositive_positive.
Qed.

Lemma elemental_sum_positive_or_null_witness :
  exists agg,
    elemental_sum Sample.env Sample.rock (Some (CName "Fe")) None "T" false false
    = Ok agg /\
    Forall positive_or_null (values agg).
Proof.
  eexists. split; [vm_compute; reflexivity|].
  eapply (elemental_sum_positive_or_null Sample.env Sample.rock (Some (CName "Fe"))
            "T" false false).
  vm_compute. reflexivity.
Defined.

(** X4. [elemental_sum] reads only the columns that can hold the cation:
    two tables with the same number of rows that agree on every possible
    species of the cation (the cation, its simple oxides, and their
    total-suffixed variants) give the same result, whatever else they
    hold. *)
Theorem elemental_sum_depends_on_species (E : Env) (df df' : DataFrame)
  (comp : component) (to : option string) (suffix : string)
  (logdata molecular : bool) (cation : string) :
  resolve_cation E (Some comp) suffix = Ok cation ->
  index_size df = index_size df' ->
  (forall s, In s (poss_specs E cation suffix) -> get_col df s = get_col df' s) ->
  elemental_sum E df (Some comp) to suffix logdata molecular
  = elemental_sum E df' (Some comp) to suffix logdata molecular.
Proof.
  intros Hcat Hn Hcols. unfold elemental_sum. rewrite Hcat. cbn [rbind].
  assert (Hspecies : candidate_species E df cation suffix
                     = candidate_species E df' cation suffix).
  { unfold candidate_species. apply filter_ext_in. intros s Hs.
    rewrite !has_col_get_col. rewrite (Hcols s (In_dedup_names _ _ Hs)). reflexivity. }
  rewrite <- Hspecies.
  assert (Hloc : forall names,
             (forall s, In s names -> In s (poss_specs E cation suffix)) ->
             rbind (loc_cols df names) (fun d => Ok (columns d))
             = rbind (loc_cols df' names) (fun d => Ok (columns d))).
  { intros names Hnames. unfold loc_cols.
    rewrite (mapM_ext_in
               (fun c => match get_col df c with
                         | Some v => Ok (c, v) | None => Err (KeyError c) end)
               (fun c => match get_col df' c with
                         | Some v => Ok (c, v) | None => Err (KeyError c) end)).
    - destruct (mapM _ names); reflexivity.
    - intros s Hs. rewrite (Hcols s (Hnames s Hs)). reflexivity. }
  destruct (candidate_species E df cation suffix) as [|s0 rest] eqn:Hsp.
  - rewrite Hn. reflexivity.
  - specialize (Hloc (s0 :: rest)).
    assert (Hin : forall s, In s (s0 :: rest) -> In s (poss_specs E cation suffix)).
    { intros s Hs. rewrite <- Hsp in Hs. unfold candidate_species in Hs.
      apply filter_In in Hs as [Hs _]. apply In_dedup_names. exact Hs. }
    specialize (Hloc Hin).
    destruct (loc_cols df (s0 :: rest)) as [d|e];
      destruct (loc_cols df' (s0 :: rest)) as [d'|e']; cbn [rbind] in Hloc |- *;
      try discriminate.
    + injection Hloc as Hloc.
      assert (Hsub : columns (if logdata then applymap (np_exp E) d else d)
                     = columns (if logdata then applymap (np_exp E) d' else d')).
      { destruct logdata; simpl; rewrite Hloc; reflexivity. }
      rewrite Hsub, Hn. reflexivity.
    + injection Hloc as ->. reflexivity.
Qed.

Lemma elemental_sum_depends_on_species_witness :
  elemental_sum Sample.env Sample.rock (Some (CName "Fe")) None "T" false false
  = elemental_sum Sample.env
      {| index_size := 2;
         columns := [ ("Fe2O3", [Fin 2; NaN]); ("Label", [Fin 1; Fin 2]);
                      ("FeO", [Fin 7; Fin 5]) ] |}
      (Some (CName "Fe")) None "T" false false.
Proof.
  apply (elemental_sum_depends_on_species Sample.env Sample.rock _ (CName "Fe")
           None "T" false false "Fe"); [reflexivity | reflexivity |].
  intros s Hs. vm_compute in Hs.
  repeat (destruct Hs as [<-|Hs]; [reflexivity|]). destruct Hs.
Defined.

(** ** The elemental sum: edge cases *)

Section SumEdges.

Context (E : Env).

Lemma filter_none {A : Type} (f : A -> bool) (l : list A) :
  (forall x, In x l -> f x = false) -> List.filter f l = [].
Proof.
  induction l as [|x l IH]; intros H; simpl; [reflexivity|].
  rewrite (H x (or_introl eq_refl)). apply IH. intros y Hy. apply H. right. exact Hy.
Qed.

Lemma forallb_eqb_differs (c c0 : string) (cations : list string) :
  In c cations -> c <> c0 ->
  forallb (fun x => String.eqb x c0) cations = false.
Proof.
  intros Hin Hne. induction cations as [|x cations IH]; [destruct Hin|].
  simpl. destruct Hin as [->|Hin].
  - destruct (String.eqb_spec c c0); [contradiction|reflexivity].
  - rewrite (IH Hin). apply andb_false_r.
Qed.

End SumEdges.

(** X5. When no possible species of the cation is a column of the table,
    [elemental_sum] raises nothing and returns a null for every row, named
    after the cation, or after [to] when [to] is given and converts. *)
Theorem elemental_sum_no_species (E : Env) (df : DataFrame) (comp : component)
  (to : option string) (suffix : string) (logdata molecular : bool)
  (cation : string) (k : Q) :
  resolve_cation E (Some comp) suffix = Ok cation ->
  (forall s, In s (poss_specs E cation suffix) -> has_col df s = false) ->
  target_factor E cation to molecular = Ok k ->
  elemental_sum E df (Some comp) to suffix logdata molecular
  = Ok {| name := default cation to; values := repeat NaN (index_size df) |}.
Proof.
  intros Hcat Hnone Hk. unfold elemental_sum. rewrite Hcat. cbn [rbind].
  unfold candidate_species.
  rewrite filter_none by (intros s Hs; apply Hnone; apply In_dedup_names; exact Hs).
  cbn [rbind]. destruct to as [t|]; simpl in Hk |- *; [|reflexivity].
  destruct (oxide_conversion E cation t molecular) as [c|e] eqn:Hc; simpl in Hk;
    [|discriminate].
  rewrite (apply_conversion_factor E cation t molecular c k _ Hc Hk). cbn [rbind].
  f_equal. f_equal. induction (index_size df) as [|n IH]; simpl; [reflexivity|].
  rewrite IH. reflexivity.
Qed.

Lemma elemental_sum_no_species_witness :
  elemental_sum Sample.env Sample.rock (Some (CName "SiO2")) (Some "SiO2") "T" false false
  = Ok {| name := "SiO2"; values := [NaN; NaN] |}.
Proof.
  apply (elemental_sum_no_species Sample.env Sample.rock (CName "SiO2") (Some "SiO2")
           "T" false false "Si" ((1 / 1) * (60083 # 1000) / (28085 # 1000)));
    [reflexivity | | reflexivity].
  intros s Hs. vm_compute in Hs.
  repeat (destruct Hs as [<-|Hs]; [reflexivity|]). destruct Hs.
Defined.

(** X6. A list, a tuple or a mapping whose members do not all resolve to
    the cation of its first member is rejected: [elemental_sum] raises
    [AssertionError], and [aggregate_element] called with such a mapping
    raises it too and leaves the store as it was. *)
Theorem cation_mismatch_is_rejected (E : Env) (l : list string) (suffix : string)
  (cations : list string) (c0 c : string) :
  mapM (fun t => cs <-- get_cations E t suffix ;; first cs) l = Ok cations ->
  head cations = Some c0 -> In c cations -> c <> c0 ->
  (forall df to logdata molecular,
     elemental_sum E df (Some (CList l)) to suffix logdata molecular
     = Err AssertionError) /\
  (forall (h : store) (r : loc) df d logdata renorm molecular,
     h !! r = Some df -> map fst d = l ->
     aggregate_element E r (TDict d) suffix logdata renorm molecular h
     = (Err AssertionError, h)).
Proof.
  intros Hm Hhead Hin Hne.
  assert (Hres : resolve_cation E (Some (CList l)) suffix = Err AssertionError).
  { unfold resolve_cation. rewrite Hm. cbn [rbind].
    destruct cations as [|x cations]; [discriminate|].
    injection Hhead as ->.
    rewrite (forallb_eqb_differs c c0 (c0 :: cations) Hin Hne). reflexivity. }
  split.
  - intros df to logdata molecular. unfold elemental_sum. rewrite Hres. reflexivity.
  - intros h r df d logdata renorm molecular Hr Hd.
    unfold aggregate_element, bind, read, lift. rewrite Hr.
    unfold aggregate_element_table, elemental_sum. cbn [target_component].
    rewrite Hd, Hres. reflexivity.
Qed.

Lemma cation_mismatch_is_rejected_witness :
  (forall df to logdata molecular,
     elemental_sum Sample.env df (Some (CList ["FeO"; "MgO"])) to "T" logdata molecular
     = Err AssertionError) /\
  (forall (h : store) (r : loc) df d logdata renorm molecular,
     h !! r = Some df -> map fst d = ["FeO"; "MgO"] ->
     aggregate_element Sample.env r (TDict d) "T" logdata renorm molecular h
     = (Err AssertionError, h)).
Proof.
  apply (cation_mismatch_is_rejected Sample.env ["FeO"; "MgO"] "T" ["Fe"; "Mg"]
           "Fe" "Mg");
    [reflexivity | reflexivity | right; left; reflexivity | discriminate].
Defined.

(** ** The table [aggregate_element] returns, column by column *)

Section AggregateColumns.

Context (E : Env).

Lemma has_col_copy_cols (src dst : DataFrame) (names : list string) (c : string) :
  has_col (copy_cols src names dst) c = has_col dst c || mem c names.
Proof.
  unfold copy_cols. revert dst. induction names as [|t names IH]; intros dst; simpl.
  - rewrite orb_false_r. reflexivity.
  - rewrite IH, has_col_set_col. unfold mem at 2. simpl. fold (mem c names).
    rewrite <- orb_assoc. reflexivity.
Qed.

Lemma get_col_copy_cols (src dst : DataFrame) (names : list string) (c : string) :
  mem c names = false -> get_col (copy_cols src names dst) c = get_col dst c.
Proof.
  unfold copy_cols. revert dst. induction names as [|t names IH]; intros dst H; simpl.
  - reflexivity.
  - unfold mem in H. simpl in H. apply orb_false_elim in H as [Ht Hn].
    rewrite IH by exact Hn. apply get_col_set_col_ne.
    intros ->. rewrite String.eqb_refl in Ht. discriminate.
Qed.

Lemma get_col_drop_cols (df : DataFrame) (names : list string) (c : string) :
  get_col (drop_cols df names) c
  = if mem c names then None else get_col df c.
Proof.
  unfold get_col, drop_cols. simpl.
  induction (columns df) as [|[k v] l IH]; simpl.
  - destruct (mem c names); reflexivity.
  - destruct (mem k names) eqn:Hk; simpl.
    + destruct (String.eqb_spec c k) as [->|Hne]; [rewrite Hk in IH |- *; exact IH|].
      exact IH.
    + destruct (String.eqb_spec c k) as [->|Hne]; [rewrite Hk; reflexivity|].
      exact IH.
Qed.

(** What the branch on [to] returns: the target names of [to], and as
    columns to drop the present species that are no target. *)
Lemma speciation_names (to : target) (cation suffix : string) (molecular : bool)
  (species tn drop : list string) (props coeff : list fval) :
  speciation E to cation suffix molecular species = Ok (tn, props, coeff, drop) ->
  tn = target_names to /\
  drop = List.filter (fun i => negb (mem i (target_names to))) species.
Proof.
  assert (Hsingle : forall s,
            List.filter (fun i => negb (String.eqb i s)) species
            = List.filter (fun i => negb (mem i [s])) species).
  { intros s. apply filter_ext_in. intros i _. unfold mem. simpl.
    rewrite orb_false_r. reflexivity. }
  unfold speciation. destruct to as [s|s|d|l]; simpl.
  - destruct (oxide_conversion E cation _ molecular) as [c|e]; cbn [rbind];
      [|discriminate].
    destruct (convert_series c (Fin 1)) as [k|e]; cbn [rbind]; [|discriminate].
    intros H. injection H as <- _ _ <-. split; [reflexivity|apply Hsingle].
  - destruct (oxide_conversion E cation _ molecular) as [c|e]; cbn [rbind];
      [|discriminate].
    destruct (convert_series c (Fin 1)) as [k|e]; cbn [rbind]; [|discriminate].
    intros H. injection H as <- _ _ <-. split; [reflexivity|apply Hsingle].
  - destruct (mapM _ _) as [co|e]; cbn [rbind]; [|discriminate].
    intros H. injection H as <- _ _ <-. split; reflexivity.
  - discriminate.
Qed.

(** The table computed by [aggregate_element], as a copy of target columns
    into the table left by the drop. *)
Lemma aggregate_table_shape (df out : DataFrame) (to : target) (suffix : string)
  (logdata molecular : bool) (drop : list string) (cation : string) :
  resolve_cation E (Some (target_component to)) suffix = Ok cation ->
  aggregate_element_table E df to suffix logdata molecular = Ok (drop, out) ->
  drop = List.filter (fun i => negb (mem i (target_names to)))
                     (List.filter (has_col df) (oxide_species E cation suffix)) /\
  exists src,
    out = copy_cols src (target_names to)
            (match drop with [] => df | _ :: _ => drop_cols df drop end).
Proof.
  intros Hcat. unfold aggregate_element_table.
  destruct (elemental_sum E df _ None suffix logdata molecular) as [agg|e] eqn:Hagg;
    cbn [rbind]; [|discriminate].
  apply elemental_sum_name in Hagg. rewrite Hcat in Hagg. injection Hagg as Hname.
  rewrite <- Hname.
  destruct (speciation E to cation suffix molecular _) as [[[[tn props] coeff] dr]|e]
    eqn:Hsp; cbn [rbind]; [|discriminate].
  apply speciation_names in Hsp as [-> ->].
  intros H. injection H as <- <-.
  split; [reflexivity|]. eexists. reflexivity.
Qed.

Lemma returned_table_aggregate_inv (h : store) (r : loc) (df out : DataFrame)
  (to : target) (suffix : string) (logdata renorm molecular : bool) :
  h !! r = Some df ->
  returned_table (aggregate_element E r to suffix logdata renorm molecular) h = Ok out ->
  exists drop plain,
    aggregate_element_table E df to suffix logdata molecular = Ok (drop, plain) /\
    out = if renorm then renormalise plain else plain.
Proof.
  intros Hr Hout.
  destruct (aggregate_element_table E df to suffix logdata molecular)
    as [[drop plain]|e] eqn:Htab.
  - exists drop, plain. split; [reflexivity|].
    rewrite (returned_table_aggregate E h r df plain to suffix logdata renorm
               molecular drop Hr Htab) in Hout.
    injection Hout as <-. reflexivity.
  - unfold returned_table, aggregate_element, bind, read, lift in Hout.
    rewrite Hr, Htab in Hout. discriminate.
Qed.

End AggregateColumns.

(** X7. The columns of the table [aggregate_element] returns (without
    renormalisation): every target is a column; every other simple oxide
    of the cation, with or without the total suffix, is gone; every
    remaining column is the column of the input, cells unchanged. *)
Theorem aggregate_element_columns (E : Env) (h : store) (r : loc)
  (df out : DataFrame) (to : target) (suffix : string) (logdata molecular : bool)
  (cation : string) :
  h !! r = Some df ->
  resolve_cation E (Some (target_component to)) suffix = Ok cation ->
  returned_table (aggregate_element E r to suffix logdata false molecular) h = Ok out ->
  forall c,
    (In c (target_names to) -> has_col out c = true) /\
    (~ In c (target_names to) -> In c (oxide_species E cation suffix) ->
     has_col out c = false) /\
    (~ In c (target_names to) -> ~ In c (oxide_species E cation suffix) ->
     get_col out c = get_col df c).
Proof.
  intros Hr Hcat Hout c.
  destruct (returned_table_aggregate_inv E h r df out to suffix logdata false molecular
              Hr Hout) as [drop [plain [Htab ->]]].
  destruct (aggregate_table_shape E df plain to suffix logdata molecular drop cation
              Hcat Htab) as [Hdrop [src ->]].
  assert (Hdst : get_col (match drop with [] => df | _ :: _ => drop_cols df drop end) c
                 = if mem c drop then None else get_col df c).
  { destruct drop; [reflexivity|apply get_col_drop_cols]. }
  split; [|split].
  - intros Hin. rewrite has_col_copy_cols. apply mem_In in Hin. rewrite Hin.
    apply orb_true_r.
  - intros Hn Hox. rewrite has_col_copy_cols.
    assert (Hm : mem c (target_names to) = false).
    { destruct (mem c (target_names to)) eqn:Hm; [|reflexivity].
      apply mem_In in Hm. contradiction. }
    rewrite Hm, orb_false_r. rewrite has_col_get_col, Hdst.
    destruct (mem c drop) eqn:Hd; [reflexivity|].
    destruct (get_col df c) eqn:Hg; [|reflexivity].
    exfalso. assert (Hin : In c drop).
    { rewrite Hdrop. apply filter_In. split.
      - apply filter_In. split; [exact Hox|]. rewrite has_col_get_col, Hg. reflexivity.
      - rewrite Hm. reflexivity. }
    apply mem_In in Hin. congruence.
  - intros Hn Hox.
    assert (Hm : mem c (target_names to) = false).
    { destruct (mem c (target_names to)) eqn:Hm; [|reflexivity].
      apply mem_In in Hm. contradiction. }
    rewrite get_col_copy_cols by exact Hm. rewrite Hdst.
    destruct (mem c drop) eqn:Hd; [|reflexivity].
    exfalso. apply mem_In in Hd. rewrite Hdrop in Hd.
    apply filter_In in Hd as [Hd _]. apply filter_In in Hd as [Hd _]. contradiction.
Qed.

Lemma aggregate_element_columns_witness :
  exists out,
    returned_table
      (aggregate_element Sample.env 0%nat (TStr "FeO") "T" false false false)
      [Sample.rock] = Ok out /\
    forall c,
      (In c (target_names (TStr "FeO")) -> has_col out c = true) /\
      (~ In c (target_names (TStr "FeO")) -> In c (oxide_species Sample.env "Fe" "T") ->
       has_col out c = false) /\
      (~ In c (target_names (TStr "FeO")) -> ~ In c (oxide_species Sample.env "Fe" "T") ->
       get_col out c = get_col Sample.rock c).
Proof.
  eexists. split; [vm_compute; reflexivity|].
  apply (aggregate_element_columns Sample.env [Sample.rock] 0%nat Sample.rock _
           (TStr "FeO") "T" false false "Fe");
    [reflexivity | reflexivity | vm_compute; reflexivity].
Defined.

(** ** [aggregate_element] and [elemental_sum] agree on a single target *)

Section SingleTarget.

Context (E : Env).

(** [elemental_sum] with [to] is [elemental_sum] without, recast. *)
Lemma elemental_sum_recast (df : DataFrame) (c : option component) (t : string)
  (suffix : string) (logdata molecular : bool) :
  elemental_sum E df c (Some t) suffix logdata molecular
  = (agg <-- elemental_sum E df c None suffix logdata molecular ;;
     vals <-- apply_conversion E (name agg) t molecular (values agg) ;;
     Ok {| name := t; values := vals |}).
Proof.
  unfold elemental_sum.
  destruct (resolve_cation E c suffix) as [cation|e]; cbn [rbind]; [|reflexivity].
  match goal with |- rbind ?m _ = _ => destruct m as [subsum|e] end;
    cbn [rbind]; reflexivity.
Qed.

Lemma recast_cells (agg : list fval) (f : Q) :
  Forall finite_or_nan agg ->
  column_eq (map (fun s => fmul s (fmul (Fin 1) (Fin f)))  agg)
            (map (fun v => fmul v (Fin f)) agg).
Proof.
  intros H. unfold column_eq.
  induction H as [|v agg Hv _ IH]; simpl; constructor; [|exact IH].
  destruct Hv as [->|[q ->]]; simpl; [exact I|ring].
Qed.

End SingleTarget.

(** X8. For a single target name [s], the column [aggregate_element]
    writes under [s] is, cell by cell, the series
    [elemental_sum(df, s, to=form)], where [form] is [s] without the total
    suffix: whenever [aggregate_element] returns, that [elemental_sum]
    returns too. *)
Theorem aggregate_element_single_target (E : Env) (h : store) (r : loc)
  (df out : DataFrame) (s suffix : string) (molecular : bool) :
  h !! r = Some df ->
  returned_table (aggregate_element E r (TStr s) suffix false false molecular) h
  = Ok out ->
  exists ser col,
    elemental_sum E df (Some (CName s)) (Some (remove_suffix s suffix)) suffix
                  false molecular = Ok ser /\
    get_col out s = Some col /\
    column_eq col (values ser).
Proof.
  intros Hr Hout.
  destruct (returned_table_aggregate_inv E h r df out (TStr s) suffix false false
              molecular Hr Hout) as [drop [plain [Htab ->]]].
  unfold aggregate_element_table in Htab. cbn [target_component] in Htab.
  destruct (elemental_sum E df (Some (CName s)) None suffix false molecular)
    as [agg|e] eqn:Hagg; cbn [rbind] in Htab; [|discriminate].
  unfold speciation in Htab.
  destruct (oxide_conversion E (name agg) (remove_suffix s suffix) molecular)
    as [c|e] eqn:Hc; cbn [rbind] in Htab; [|discriminate].
  unfold convert_series in Htab.
  destruct (factor c) as [f|e] eqn:Hf; cbn [rbind] in Htab; [|discriminate].
  injection Htab as _ <-.
  rewrite elemental_sum_recast, Hagg. cbn [rbind].
  rewrite (apply_conversion_factor E _ _ molecular c f _ Hc Hf). cbn [rbind].
  eexists _, _. split; [reflexivity|]. split.
  - unfold copy_cols, assign_outer. cbn [fold_left zip zip_with fst snd].
    rewrite get_col_set_col_eq. rewrite get_col_set_col_eq. reflexivity.
  - cbn [values]. apply recast_cells. eapply elemental_sum_values. exact Hagg.
Qed.

Lemma aggregate_element_single_target_witness :
  exists out,
    returned_table
      (aggregate_element Sample.env 0%nat (TStr "FeO") "T" false false false)
      [Sample.rock] = Ok out /\
    exists ser col,
      elemental_sum Sample.env Sample.rock (Some (CName "FeO"))
                    (Some (remove_suffix "FeO" "T")) "T" false false = Ok ser /\
      get_col out "FeO" = Some col /\
      column_eq col (values ser).
Proof.
  eexists. split; [vm_compute; reflexivity|].
  apply (aggregate_element_single_target Sample.env [Sample.rock] 0%nat Sample.rock);
    [reflexivity | vm_compute; reflexivity].
Defined.

(** X9. [aggregate_element] and the store: when it raises, every table is
    as it was; when it returns, every table other than the one it was
    passed is as it was, and no table has gone. *)
Theorem aggregate_element_other_tables (E : Env) (h : store) (r : loc)
  (to : target) (suffix : string) (logdata renorm molecular : bool) :
  (forall e, fst (aggregate_element E r to suffix logdata renorm molecular h) = Err e ->
             snd (aggregate_element E r to suffix logdata renorm molecular h) = h) /\
  (forall l, l <> r -> (l < length h)%nat ->
             snd (aggregate_element E r to suffix logdata renorm molecular h) !! l
             = h !! l) /\
  (length h <= length (snd (aggregate_element E r to suffix logdata renorm molecular h)))%nat.
Proof.
  unfold aggregate_element, bind, read, lift, write, alloc, ret.
  destruct (h !! r) as [df|]; [|repeat split; auto].
  destruct (aggregate_element_table E df to suffix logdata molecular) as [[drop out]|e];
    [|repeat split; auto].
  destruct drop as [|d drop]; destruct renorm; simpl; repeat split;
    try discriminate; intros; rewrite ?length_app, ?length_insert; try lia;
    rewrite ?lookup_app_l by (rewrite ?length_app, ?length_insert; simpl; lia);
    rewrite ?lookup_app_l by (rewrite ?length_insert; lia);
    rewrite ?list_lookup_insert_ne by congruence; reflexivity.
Qed.

(** X10. A list or a tuple as [to] is not implemented: when its members
    share one cation and the aggregation raises nothing,
    [aggregate_element] raises [NotImplementedError], and the table it was
    passed is not written. *)
Theorem aggregate_element_sequence_target (E : Env) (h : store) (r : loc)
  (df : DataFrame) (l : list string) (suffix : string)
  (logdata renorm molecular : bool) (agg : Series) :
  h !! r = Some df ->
  elemental_sum E df (Some (CList l)) None suffix logdata molecular = Ok agg ->
  aggregate_element E r (TSeq l) suffix logdata renorm molecular h
  = (Err (NotImplementedError "Not yet implemented for tuples, lists, arrays etc."), h).
Proof.
  intros Hr Hagg. unfold aggregate_element, bind, read, lift. rewrite Hr.
  unfold aggregate_element_table. cbn [target_component]. rewrite Hagg. reflexivity.
Qed.

Lemma aggregate_element_sequence_target_witness :
  aggregate_element Sample.env 0%nat (TSeq ["FeO"; "Fe2O3"]) "T" false false false
                    [Sample.rock]
  = (Err (NotImplementedError "Not yet implemented for tuples, lists, arrays etc."),
     [Sample.rock]).
Proof.
  eapply (aggregate_element_sequence_target Sample.env [Sample.rock] 0%nat Sample.rock
            ["FeO"; "Fe2O3"] "T" false false false);
    [reflexivity | vm_compute; reflexivity].
Defined.

(** ** Ratios: the ratio string and the column that is written *)

Section RatioFacts.

Context (E : Env).

Lemma split_on_length (sep : ascii) (s : string) :
  length (split_on sep s) = S (count_char sep s).
Proof.
  induction s as [|c s IH]; simpl; [reflexivity|].
  destruct (Ascii.eqb c sep); simpl.
  - rewrite IH. reflexivity.
  - destruct (split_on sep s) as [|w ws]; simpl in *; [discriminate|exact IH].
Qed.


End RatioFacts.

(** X11. A ratio string must hold exactly one ["/"]: with none, or with
    more than one, [add_ratio] raises the [ValueError] of the unpacking
    [num, den = ratio.split("/")] and leaves the table as it was. *)
Theorem add_ratio_malformed (E : Env) (h : store) (r : loc) (df : DataFrame)
  (ratio : string) (alias : option string) (norm_to : norm_arg) (molecular : bool) :
  h !! r = Some df ->
  count_char "/" ratio <> 1%nat ->
  add_ratio E r ratio alias norm_to molecular h
  = (Err (ValueError "wrong number of values to unpack"), h).
Proof.
  intros Hr Hcount. unfold add_ratio, bind, read, lift. rewrite Hr.
  unfold add_ratio_table.
  pose proof (split_on_length "/" ratio) as Hlen.
  destruct (split_on "/" ratio) as [|num [|den [|x l]]]; simpl in Hlen;
    try reflexivity.
  exfalso. apply Hcount. lia.
Qed.

Lemma add_ratio_malformed_witness :
  add_ratio Sample.env 0%nat "MgO/FeO/Fe2O3" None NormNone false [Sample.rock]
  = (Err (ValueError "wrong number of values to unpack"), [Sample.rock]).
Proof.
  apply (add_ratio_malformed Sample.env [Sample.rock] 0%nat Sample.rock);
    [reflexivity | vm_compute; lia].
Defined.



(** ** The magnesium number *)

Section MgNoFacts.

Context (E : Env).

(** The cells of an aggregate, as [add_MgNo] uses them. *)
Lemma aggregate_cells_positive (df : DataFrame) (c : option component)
  (suffix : string) (logdata molecular : bool) (agg : Series) :
  elemental_sum E df c None suffix logdata molecular = Ok agg ->
  Forall positive_or_nan (values agg).
Proof.
  unfold elemental_sum.
  destruct (resolve_cation E c suffix) as [cation|e]; cbn [rbind]; [|discriminate].
  destruct (candidate_species E df cation suffix) as [|s0 rest].
  - cbn [rbind]. intros H. injection H as <-. simpl.
    apply Forall_repeat. left. reflexivity.
  - destruct (loc_cols df (s0 :: rest)) as [subdf|e]; cbn [rbind]; [|discriminate].
    destruct (convert_candidates E _ cation suffix molecular) as [converted|e];
      cbn [rbind]; [|discriminate].
    intros H. injection H as <-. simpl.
    rewrite Forall_map.
    eapply Forall_impl.
    + apply sum_axis1_finite. rewrite Forall_map. rewrite Forall_forall.
      intros kv _. apply zero_invalid_finite.
    + intros v Hv. destruct v; simpl in Hv; try discriminate.
      apply null_nonpositive_positive.
Qed.

Lemma to_molecular_series (s : Series) (n : nat) (out : DataFrame) :
  (forall c f, pt_formula E c = Some f -> 0 < mass f) ->
  Forall positive_or_nan (values s) ->
  to_molecular E (to_frame s n) false = Ok out ->
  Forall positive_or_nan (frame_values out).
Proof.
  intros Hmass Hpos. unfold to_molecular, molecular_weights, to_frame, col_names.
  cbn [columns map fst mapM]. unfold resolve.
  destruct (pt_formula E (name s)) as [f|] eqn:Hf; cbn [rbind]; [|discriminate].
  intros H. injection H as <-. unfold div_columns, frame_values. simpl.
  rewrite Forall_map. eapply Forall_impl; [exact Hpos|].
  intros v [->|[q [-> Hq]]]; [left; reflexivity|].
  pose proof (Hmass _ _ Hf) as Hm. right. simpl.
  rewrite (Qeq_bool_false _ _ (Qpos_neq _ Hm)).
  eexists. split; [reflexivity|]. apply Qdiv_pos; assumption.
Qed.

Lemma magnesium_fraction (m f : fval) :
  positive_or_nan m -> positive_or_nan f -> fraction_or_nan (fdiv m (fadd m f)).
Proof.
  intros [->|[x [-> Hx]]] [->|[y [-> Hy]]]; try (left; reflexivity).
  simpl.
  assert (Hsum : 0 < x + y).
  { lra. }
  rewrite (Qeq_bool_false _ _ (Qpos_neq _ Hsum)).
  right. eexists. split; [reflexivity|]. split.
  - apply Qdiv_pos; assumption.
  - apply Qlt_shift_div_r; [exact Hsum|].
    lra.
Qed.

Lemma Forall_zip_with_2 {A B C : Type} (P : A -> Prop) (Q : B -> Prop)
  (R : C -> Prop) (f : A -> B -> C) (xs : list A) (ys : list B) :
  (forall x y, P x -> Q y -> R (f x y)) ->
  Forall P xs -> Forall Q ys -> Forall R (zip_with f xs ys).
Proof.
  intros Hf Hxs. revert ys. induction Hxs as [|x xs Hx _ IH]; intros ys Hys; simpl.
  - constructor.
  - destruct Hys as [|y ys Hy Hys]; constructor; [apply Hf; assumption|].
    apply IH. exact Hys.
Qed.

End MgNoFacts.

(** X13. When [add_MgNo] returns (it does so only without
    [use_total_approx]) and molecular weights are positive, every cell of
    the column it writes is null or a finite value of the interval
    [0, 1]. *)
Theorem add_MgNo_is_a_fraction (E : Env) (h : store) (r : loc)
  (df out : DataFrame) (molecular : bool) (approx : fval) (name : string) :
  (forall c f, pt_formula E c = Some f -> 0 < mass f) ->
  h !! r = Some df ->
  returned_table (add_MgNo E r molecular false approx name) h = Ok out ->
  exists col, get_col out name = Some col /\ Forall unit_or_nan col.
Proof.
  intros Hmass Hr Hout.
  enough (exists col, get_col out name = Some col /\ Forall fraction_or_nan col)
    as [col [Hcol Hfrac]].
  { exists col. split; [exact Hcol|].
    eapply Forall_impl; [exact Hfrac|].
    intros v [->|[q [-> [Hlo Hhi]]]]; [left; reflexivity|].
    right. exists q. split; [reflexivity|].
    split; apply Qlt_le_weak; assumption. }
  assert (Hlt : (r < length h)%nat) by (eapply lookup_lt_Some; exact Hr).
  unfold returned_table, add_MgNo, bind, read, lift, write, ret in Hout.
  rewrite Hr in Hout.
  destruct (add_MgNo_table E df molecular false approx name) as [t'|e] eqn:Ht;
    [|discriminate].
  simpl in Hout. rewrite list_lookup_insert_eq in Hout by exact Hlt.
  injection Hout as <-.
  unfold add_MgNo_table in Ht.
  destruct (elemental_sum E df (Some (CName "Mg")) None "T" false molecular)
    as [mg|e] eqn:Hmg; cbn [rbind] in Ht; [|discriminate].
  destruct (loc_cols df _) as [sub|e]; cbn [rbind] in Ht; [|discriminate].
  destruct (elemental_sum E sub (Some (CName "Fe")) None "T" false molecular)
    as [fe|e] eqn:Hfe; cbn [rbind] in Ht; [|discriminate].
  apply aggregate_cells_positive in Hmg, Hfe.
  assert (Hcells : forall mgfe : list fval * list fval,
            Forall positive_or_nan (fst mgfe) -> Forall positive_or_nan (snd mgfe) ->
            match zip_with (fun m f => fdiv m (fadd m f)) (fst mgfe) (snd mgfe) with
            | [] => Ok (set_col df name (repeat NaN (index_size df)))
            | _ :: _ =>
                Ok (set_col df name
                      (zip_with (fun m f => fdiv m (fadd m f)) (fst mgfe) (snd mgfe)))
            end = Ok t' ->
            exists col, get_col t' name = Some col /\ Forall fraction_or_nan col).
  { intros mgfe H1 H2 Heq.
    pose proof (Forall_zip_with_2 _ _ fraction_or_nan
                  (fun m f => fdiv m (fadd m f)) _ _ magnesium_fraction H1 H2) as Hz.
    destruct (zip_with _ (fst mgfe) (snd mgfe)); injection Heq as <-;
      (eexists; split; [apply get_col_set_col_eq|]); [|exact Hz].
    apply Forall_repeat. left. reflexivity. }
  destruct molecular; cbn [negb] in Ht; cbv beta iota in Ht.
  - cbn [rbind] in Ht. apply (Hcells (values mg, values fe)); assumption.
  - destruct (to_molecular E (to_frame mg _) false) as [mgm|e] eqn:Hmgm;
      cbn [rbind] in Ht; [|discriminate].
    destruct (to_molecular E (to_frame fe _) false) as [fem|e] eqn:Hfem;
      cbn [rbind] in Ht; [|discriminate].
    apply (Hcells (frame_values mgm, frame_values fem)); [| |exact Ht].
    + apply (to_molecular_series E mg (index_size df) mgm Hmass Hmg Hmgm).
    + apply (to_molecular_series E fe (index_size df) fem Hmass Hfe Hfem).
Qed.

Lemma sample_masses_positive :
  forall c f, pt_formula Sample.env c = Some f -> 0 < mass f.
Proof.
  intros c f H. cbn in H.
  repeat match type of H with
         | (if ?b then _ else _) = _ =>
             destruct b; [injection H as <-; Qpos|]
         end.
  discriminate.
Qed.

Lemma add_MgNo_is_a_fraction_witness :
  exists out,
    returned_table (add_MgNo Sample.env 0%nat false false (Fin (1 # 10)) "Mg#")
                   [Sample.rock] = Ok out /\
    exists col, get_col out "Mg#" = Some col /\ Forall unit_or_nan col.
Proof.
  eexists. split; [vm_compute; reflexivity|].
  apply (add_MgNo_is_a_fraction Sample.env [Sample.rock] 0%nat Sample.rock _ false
           (Fin (1 # 10)) "Mg#");
    [exact sample_masses_positive | reflexivity | vm_compute; reflexivity].
Defined.

(** X14. With [use_total_approx=True], [add_MgNo] never returns a table:
    it raises (its call of [aggregate_element] binds [to] twice) and
    leaves the table it was passed as it was. *)
Theorem add_MgNo_total_approx_never_returns (E : Env) (h : store) (r : loc)
  (molecular : bool) (approx : fval) (name : string) :
  exists e, add_MgNo E r molecular true approx name h = (Err e, h).
Proof.
  unfold add_MgNo, bind, read, lift.
  destruct (h !! r) as [t|]; [|eexists; reflexivity].
  unfold add_MgNo_table.
  destruct (elemental_sum E t (Some (CName "Mg")) None "T" false molecular);
    eexists; reflexivity.
Qed.

(** ** Mass and molar bases: the other round trip, and unreadable names *)

Section BasisEdges.

Context (E : Env).

Lemma fmul_fdiv_cancel (v : fval) (w : Q) :
  0 < w -> fdiv (fmul v (Fin w)) (Fin w) =f= v.
Proof.
  intros Hw.
  assert (Hne : ~ w == 0) by (apply Qpos_neq; exact Hw).
  assert (Hnlt : Qlt_bool w 0 = false)
    by (apply Qlt_bool_false; apply Qlt_le_weak; exact Hw).
  destruct v as [x| | |]; simpl.
  - rewrite (Qeq_bool_false _ _ Hne). simpl. field. exact Hne.
  - rewrite (inf_signed_pos _ Hw). simpl. rewrite Hnlt. exact I.
  - rewrite (inf_signed_pos _ Hw). simpl. rewrite Hnlt. exact I.
  - exact I.
Qed.

Lemma mul_columns_names (df : DataFrame) (ws : list Q) :
  length ws = length (columns df) ->
  col_names (mul_columns df ws) = col_names df.
Proof.
  unfold col_names, mul_columns. simpl.
  revert ws. induction (columns df) as [|kv cols IH]; intros [|w ws] H;
    simpl in *; try discriminate; [reflexivity|].
  f_equal. apply IH. lia.
Qed.

Lemma div_mul_columns (cols : list (string * list fval)) (ws : list Q) :
  length ws = length cols -> Forall (fun w => 0 < w) ws ->
  Forall2 (fun x y => fst x = fst y /\ column_eq (snd x) (snd y))
    (zip_with (fun kv w => (fst kv, map (fun v => fdiv v (Fin w)) (snd kv)))
       (zip_with (fun kv w => (fst kv, map (fun v => fmul v (Fin w)) (snd kv)))
          cols ws) ws)
    cols.
Proof.
  revert ws. induction cols as [|[c col] cols IH]; intros [|w ws] Hlen Hpos;
    simpl in *; try discriminate; constructor.
  - simpl. split; [reflexivity|].
    apply Forall_cons in Hpos as [Hw _].
    unfold column_eq. induction col as [|v col IHc]; simpl; constructor.
    + apply fmul_fdiv_cancel. exact Hw.
    + exact IHc.
  - apply IH; [lia|]. apply Forall_cons in Hpos as [_ Hp]. exact Hp.
Qed.

(** The weights are looked up column by column, and the first name that
    periodictable cannot read ends the loop. *)
Lemma molecular_weights_unreadable (df : DataFrame) (pre post : list string)
  (c : string) :
  col_names df = pre ++ c :: post ->
  Forall (fun x => pt_formula E x <> None) pre ->
  pt_formula E c = None ->
  molecular_weights E df = Err (FormulaParseError c).
Proof.
  intros Hnames Hpre Hc. unfold molecular_weights. rewrite Hnames. clear Hnames.
  induction Hpre as [|x pre Hx _ IH]; simpl.
  - unfold resolve. rewrite Hc. reflexivity.
  - unfold resolve at 1. destruct (pt_formula E x) as [f|]; [|contradiction].
    cbn [rbind]. rewrite IH. reflexivity.
Qed.

End BasisEdges.

(** X15. The round trip the other way: for a table whose column names all
    resolve to positive molecular weights, [to_weight] without
    renormalisation followed by [to_molecular] without renormalisation
    returns the table, cell by cell. *)
Theorem to_molecular_to_weight (E : Env) (X : DataFrame) :
  Forall (fun c => exists f, pt_formula E c = Some f /\ 0 < mass f) (col_names X) ->
  exists Y Z,
    to_weight E X false = Ok Y /\
    to_molecular E Y false = Ok Z /\
    frame_eq Z X.
Proof.
  intros H.
  destruct (molecular_weights_spec E X H) as [ws [Hws [Hlen Hpos]]].
  exists (mul_columns X ws), (div_columns (mul_columns X ws) ws).
  split; [unfold to_weight; rewrite Hws; reflexivity|].
  split.
  - unfold to_molecular.
    assert (Hmw : molecular_weights E (mul_columns X ws) = Ok ws).
    { unfold molecular_weights. rewrite (mul_columns_names X ws Hlen). exact Hws. }
    rewrite Hmw. reflexivity.
  - split; [reflexivity|]. simpl. apply div_mul_columns; assumption.
Qed.

Lemma to_molecular_to_weight_witness :
  exists Y Z,
    to_weight Sample.env
      {| index_size := 2;
         columns := [("MgO", [Fin 8; NaN]); ("FeO", [Fin 7; Fin 5])] |} false = Ok Y /\
    to_molecular Sample.env Y false = Ok Z /\
    frame_eq Z {| index_size := 2;
                  columns := [("MgO", [Fin 8; NaN]); ("FeO", [Fin 7; Fin 5])] |}.
Proof.
  apply (to_molecular_to_weight Sample.env).
  repeat constructor; simpl; eexists; (split; [reflexivity | Qpos]).
Defined.

(** X16. A table with a column whose name periodictable cannot read is not
    converted: [to_molecular] and [to_weight] raise the parse error of the
    first such name, with and without renormalisation. *)
Theorem basis_conversion_unreadable_name (E : Env) (df : DataFrame)
  (pre post : list string) (c : string) (renorm : bool) :
  col_names df = pre ++ c :: post ->
  Forall (fun x => pt_formula E x <> None) pre ->
  pt_formula E c = None ->
  to_molecular E df renorm = Err (FormulaParseError c) /\
  to_weight E df renorm = Err (FormulaParseError c).
Proof.
  intros Hnames Hpre Hc.
  unfold to_molecular, to_weight.
  rewrite (molecular_weights_unreadable E df pre post c Hnames Hpre Hc).
  split; reflexivity.
Qed.

Lemma basis_conversion_unreadable_name_witness :
  to_molecular Sample.env Sample.rock true = Err (FormulaParseError "Depth") /\
  to_weight Sample.env Sample.rock true = Err (FormulaParseError "Depth").
Proof.
  apply (basis_conversion_unreadable_name Sample.env Sample.rock []
           ["MgO"; "FeO"; "Fe2O3"] "Depth" true);
    [reflexivity | constructor | reflexivity].
Defined.

(** ** Volatile-free tables *)

Section DevolatiliseFacts.

Lemma assoc_filter_keys {A : Type} (p : string -> bool) (k : string)
  (l : list (string * A)) :
  assoc k (List.filter (fun kv => p (fst kv)) l)
  = if p k then assoc k l else None.
Proof.
  induction l as [|[k' v] l IH]; simpl; [destruct (p k); reflexivity|].
  destruct (p k') eqn:Hk'; simpl.
  - destruct (String.eqb_spec k k') as [->|Hne]; [rewrite Hk'; reflexivity|exact IH].
  - destruct (String.eqb_spec k k') as [->|Hne]; [rewrite Hk' in *; exact IH|exact IH].
Qed.

(** In a table without duplicate names, selecting the names a filter keeps
    selects the columns the filter keeps. *)
Lemma loc_cols_filter (df : DataFrame) (p : string -> bool) :
  NoDup (col_names df) ->
  loc_cols df (List.filter p (col_names df))
  = Ok {| index_size := index_size df;
          columns := List.filter (fun kv => p (fst kv)) (columns df) |}.
Proof.
  unfold loc_cols, col_names, get_col. intros Hnd.
  assert (H : mapM (fun c => match assoc c (columns df) with
                             | Some v => Ok (c, v)
                             | None => Err (KeyError c)
                             end)
                   (List.filter p (map fst (columns df)))
              = Ok (List.filter (fun kv => p (fst kv)) (columns df))).
  { induction (columns df) as [|[k v] l IH]; simpl; [reflexivity|].
    simpl in Hnd. apply NoDup_cons in Hnd as [Hk Hnd].
    assert (Hrest : mapM (fun c => match (if String.eqb c k then Some v
                                          else assoc c l) with
                                   | Some v0 => Ok (c, v0)
                                   | None => Err (KeyError c)
                                   end) (List.filter p (map fst l))
                    = Ok (List.filter (fun kv => p (fst kv)) l)).
    { rewrite <- (IH Hnd). apply mapM_ext_in. intros c Hc.
      apply filter_In in Hc as [Hc _].
      destruct (String.eqb_spec c k) as [->|Hne]; [|reflexivity].
      exfalso. apply Hk. apply list_elem_of_In. exact Hc. }
    destruct (p k); simpl.
    - rewrite String.eqb_refl. cbn [rbind]. rewrite Hrest. reflexivity.
    - exact Hrest. }
  rewrite H. reflexivity.
Qed.

Lemma map_fst_filter_keys {A : Type} (p : string -> bool) (l : list (string * A)) :
  map fst (List.filter (fun kv => p (fst kv)) l) = List.filter p (map fst l).
Proof.
  induction l as [|[k v] l IH]; simpl; [reflexivity|].
  destruct (p k); simpl; rewrite IH; reflexivity.
Qed.

Lemma filter_twice {A : Type} (f : A -> bool) (l : list A) :
  List.filter f (List.filter f l) = List.filter f l.
Proof.
  induction l as [|x l IH]; simpl; [reflexivity|].
  destruct (f x) eqn:Hx; simpl; [rewrite Hx, IH|]; auto.
Qed.

Lemma NoDup_list_filter {A : Type} (f : A -> bool) (l : list A) :
  NoDup l -> NoDup (List.filter f l).
Proof.
  induction 1 as [|x l Hx Hnd IH]; simpl; [constructor|].
  destruct (f x); [|exact IH]. constructor; [|exact IH].
  intros Hin. apply Hx. apply list_elem_of_In in Hin.
  apply filter_In in Hin as [Hin _]. apply list_elem_of_In. exact Hin.
Qed.

End DevolatiliseFacts.

(** X17. [devolatilise] without renormalisation, on a table without
    duplicate column names: it raises nothing; an excluded name is no
    column of the result; every other column is there in its place with
    its cells unchanged; and a second pass changes nothing. *)
Theorem devolatilise_drops_excluded (df : DataFrame) (exclude : list string) :
  NoDup (col_names df) ->
  exists out,
    devolatilise df exclude false = Ok out /\
    col_names out = List.filter (fun c => negb (mem c exclude)) (col_names df) /\
    (forall c, get_col out c = if mem c exclude then None else get_col df c) /\
    devolatilise out exclude false = Ok out.
Proof.
  intros Hnd.
  set (out := {| index_size := index_size df;
                 columns := List.filter (fun kv => negb (mem (fst kv) exclude))
                                        (columns df) |}).
  assert (Hout : devolatilise df exclude false = Ok out).
  { unfold devolatilise.
    rewrite (loc_cols_filter df (fun c => negb (mem c exclude)) Hnd). reflexivity. }
  assert (Hnames : col_names out
                   = List.filter (fun c => negb (mem c exclude)) (col_names df)).
  { unfold col_names, out. simpl.
    apply (map_fst_filter_keys (fun c => negb (mem c exclude))). }
  exists out. split; [exact Hout|]. split; [exact Hnames|]. split.
  - intros c. unfold get_col, out. simpl.
    rewrite (assoc_filter_keys (fun c => negb (mem c exclude))).
    destruct (mem c exclude); reflexivity.
  - unfold devolatilise.
    rewrite (loc_cols_filter out (fun c => negb (mem c exclude))).
    + cbn [rbind]. f_equal. unfold out. simpl. f_equal. apply filter_twice.
    + rewrite Hnames. apply NoDup_list_filter. exact Hnd.
Qed.

Lemma devolatilise_drops_excluded_witness :
  exists out,
    devolatilise Sample.rock ["Depth"; "Fe2O3"] false = Ok out /\
    col_names out
    = List.filter (fun c => negb (mem c ["Depth"; "Fe2O3"])) (col_names Sample.rock) /\
    (forall c, get_col out c
               = if mem c ["Depth"; "Fe2O3"] then None else get_col Sample.rock c) /\
    devolatilise out ["Depth"; "Fe2O3"] false = Ok out.
Proof.
  apply (devolatilise_drops_excluded Sample.rock ["Depth"; "Fe2O3"]).
  vm_compute.
  repeat (constructor;
          [intros Hin; apply list_elem_of_In in Hin; simpl in Hin;
           intuition discriminate|]).
  constructor.
Defined.

(** ** The columns [convert_chemistry] returns *)

Section OutputColumns.

Context (E : Env).

Lemma loc_cols_names (df out : DataFrame) (names : list string) :
  loc_cols df names = Ok out -> col_names out = names.
Proof.
  unfold loc_cols.
  destruct (mapM _ names) as [cols|e] eqn:Hm; cbn [rbind]; [|discriminate].
  intros H. injection H as <-. unfold col_names. simpl.
  apply mapM_Forall2 in Hm.
  induction Hm as [|c kv names cols Hc _ IH]; simpl; [reflexivity|].
  destruct (get_col df c); [|discriminate]. injection Hc as <-. simpl.
  rewrite IH. reflexivity.
Qed.

(** The table [finish] returns holds the output columns, in order. *)
Lemma finish_columns (w l : loc) (gc cols : list string) (renorm : bool)
  (h h' : store) :
  finish E w gc cols renorm h = (Ok l, h') ->
  exists out, h' !! l = Some out /\ col_names out = cols.
Proof.
  unfold finish, bind, read, lift, write, alloc, ret, raise.
  destruct (h !! w) as [t|]; [|discriminate].
  destruct (List.filter _ gc); [|discriminate].
  destruct renorm.
  - destruct (loc_cols t _) as [sub|e]; [|discriminate].
    destruct (loc_cols _ cols) as [out|e] eqn:Hout; [|discriminate].
    intros H. injection H as <- <-. exists out. split.
    + apply list_lookup_middle. reflexivity.
    + apply (loc_cols_names _ _ _ Hout).
  - destruct (loc_cols t cols) as [out|e] eqn:Hout; [|discriminate].
    intros H. injection H as <- <-. exists out. split.
    + apply list_lookup_middle. reflexivity.
    + apply (loc_cols_names _ _ _ Hout).
Qed.

End OutputColumns.

(** X18. When [convert_chemistry] returns, the columns of the table it
    returns are, in this order: the non-compositional columns of the
    input, the requested names that are no such column and no new ratio,
    the keys of the coupled dictionaries, and the new ratios. *)
Theorem convert_chemistry_output_columns (E : Env) (h : store) (r : loc)
  (t out : DataFrame) (to : list request) (logdata renorm molecular : bool) :
  h !! r = Some t ->
  returned_table (convert_chemistry E r to logdata renorm molecular) h = Ok out ->
  exists ratios,
    new_ratios t to = Ok ratios /\
    col_names out
    = noncomp E t to ++ get_comp E t to ratios ++ coupled_components to ++ ratios.
Proof.
  intros Hr Hout.
  unfold returned_table, convert_chemistry, bind, read, alloc, lift in Hout.
  rewrite Hr in Hout.
  destruct (new_ratios t to) as [ratios|e]; [|discriminate].
  exists ratios. split; [reflexivity|].
  destruct (aggregate_all E _ _ logdata molecular _) as [[w1|e] h1]; [|discriminate].
  destruct (iron_section E _ w1 logdata molecular h1) as [[w2|e] h2]; [|discriminate].
  destruct (add_ratios E ratios w2 molecular h2) as [[w3|e] h3]; [|discriminate].
  destruct (finish E w3 _ _ renorm h3) as [[l|e] h4] eqn:Hfin; [|discriminate].
  destruct (finish_columns E _ _ _ _ _ _ _ Hfin) as [o [Ho Hnames]].
  rewrite Ho in Hout. injection Hout as <-. exact Hnames.
Qed.

Lemma convert_chemistry_output_columns_witness :
  exists out,
    returned_table
      (convert_chemistry Sample.env 0%nat
         [RName "MgO"; RName "FeOT"; RName "MgO/FeO"] false false false)
      [Sample.rock] = Ok out /\
    exists ratios,
      new_ratios Sample.rock [RName "MgO"; RName "FeOT"; RName "MgO/FeO"]
      = Ok ratios /\
      col_names out
      = noncomp Sample.env Sample.rock [RName "MgO"; RName "FeOT"; RName "MgO/FeO"]
        ++ get_comp Sample.env Sample.rock
             [RName "MgO"; RName "FeOT"; RName "MgO/FeO"] ratios
        ++ coupled_components [RName "MgO"; RName "FeOT"; RName "MgO/FeO"]
        ++ ratios.
Proof.
  eexists. split; [vm_compute; reflexivity|].
  apply (convert_chemistry_output_columns Sample.env [Sample.rock] 0%nat Sample.rock _
           [RName "MgO"; RName "FeOT"; RName "MgO/FeO"] false false false);
    [reflexivity | vm_compute; reflexivity].
Defined.

(** ** Lambda coefficients: rows, names and rejections *)

Section LambdaEdges.

Context (E : Env).

Lemma select_ree_present (df : DataFrame) (exclude : list string) (c : string) :
  In c (select_ree E df exclude) -> has_col df c = true.
Proof.
  unfold select_ree. intros H. apply filter_In in H as [_ H].
  apply andb_prop in H as [H _]. apply andb_prop in H as [H _]. exact H.
Qed.

(** The table of the selected elements. *)
Lemma selected_table (df : DataFrame) (exclude : list string) :
  loc_cols df (select_ree E df exclude)
  = Ok {| index_size := index_size df;
          columns := map (fun c => (c, default [] (get_col df c)))
                         (select_ree E df exclude) |}.
Proof. apply loc_cols_present. apply select_ree_present. Qed.

(** A null among the selected values of a row is a null of the row of the
    selected table. *)
Lemma selected_row_null (df : DataFrame) (exclude : list string) (i : nat)
  (c : string) (col : list fval) :
  In c (select_ree E df exclude) -> get_col df c = Some col -> nth i col NaN = NaN ->
  existsb isnull
    (row {| index_size := index_size df;
            columns := map (fun c => (c, default [] (get_col df c)))
                           (select_ree E df exclude) |} i) = true.
Proof.
  intros Hin Hcol Hnull. apply existsb_exists. exists NaN. split; [|reflexivity].
  unfold row. cbn [columns]. rewrite map_map. cbn [snd].
  apply in_map_iff. exists c. split; [|exact Hin].
  rewrite Hcol. exact Hnull.
Qed.

Lemma no_row_to_fit {A : Type} (f : A -> bool) (l : list A) :
  (forall x, In x l -> f x = true) ->
  List.filter (fun br : bool * A => negb (fst br)) (zip (map f l) l) = [].
Proof.
  induction l as [|x l IH]; intros H; simpl; [reflexivity|].
  rewrite (H x (or_introl eq_refl)). simpl. apply IH.
  intros y Hy. apply H. right. exact Hy.
Qed.

Lemma columns_of_rows_names {A : Type} (labels : list string)
  (rows : list (list A)) (dflt : A) :
  map fst (columns_of_rows labels rows dflt) = labels.
Proof.
  unfold columns_of_rows.
  assert (H : forall (g : nat -> string -> string * list A),
             (forall j l, fst (g j l) = l) -> map fst (imap g labels) = labels).
  { induction labels as [|l labels IH]; intros g Hg; simpl; [reflexivity|].
    rewrite Hg. f_equal. apply IH. intros j l'. apply Hg. }
  apply H. intros j l. reflexivity.
Qed.

End LambdaEdges.

(** X19. Whenever [lambda_lnREE] returns a table, the table has as many
    rows as the input, in every column, and a row of the input with a null
    under one of the selected elements -- all the more a row whose
    selected values are all null -- holds nulls only. *)
Theorem lambda_lnREE_rows (E : Env) (h : store) (r : loc) (df : DataFrame)
  (norm_to : ree_norm) (exclude : list string) (params : option (list (list Q)))
  (degree : nat) (append : option (list string)) (scale : string) (out : ObjFrame) :
  h !! r = Some df ->
  fst (lambda_lnREE E r norm_to exclude params degree append scale h) = Ok out ->
  o_index_size out = index_size df /\
  Forall (fun kv : string * list obj =>
            length (snd kv) = index_size df /\
            forall i c col,
              (i < index_size df)%nat ->
              In c (select_ree E df exclude) -> get_col df c = Some col ->
              nth i col NaN = NaN ->
              nth i (snd kv) (ONum NaN) = ONum NaN)
         (o_columns out).
Proof.
  intros Hr Hout. unfold lambda_lnREE, bind, read, lift in Hout.
  rewrite Hr in Hout. simpl in Hout.
  destruct (lambda_lnREE_table_rows E df _ norm_to exclude params degree append scale
              out Hout (selected_table E df exclude)) as [Hn Hcols].
  split; [exact Hn|].
  eapply Forall_impl; [exact Hcols|]. intros kv [Hlen Hnull]. split; [exact Hlen|].
  intros i c col Hi Hin Hcol Hnan. apply Hnull; [exact Hi|].
  apply (selected_row_null E df exclude i c col Hin Hcol Hnan).
Qed.

Lemma lambda_lnREE_rows_witness :
  exists out,
    fst (lambda_lnREE Sample.env 0%nat ReeNone ["Pm"; "Eu"] None 2 (Some []) "ppm"
           [{| index_size := 2;
               columns := [("La", [Fin 1; NaN]); ("Ce", [Fin 1; Fin 1])] |}])
    = Ok out /\
    o_index_size out = 2%nat /\
    Forall (fun kv : string * list obj =>
              length (snd kv) = 2%nat /\
              forall i c col,
                (i < 2)%nat ->
                In c (select_ree Sample.env
                        {| index_size := 2;
                           columns := [("La", [Fin 1; NaN]); ("Ce", [Fin 1; Fin 1])] |}
                        ["Pm"; "Eu"]) ->
                get_col {| index_size := 2;
                           columns := [("La", [Fin 1; NaN]); ("Ce", [Fin 1; Fin 1])] |} c
                = Some col ->
                nth i col NaN = NaN ->
                nth i (snd kv) (ONum NaN) = ONum NaN)
           (o_columns out).
Proof.
  eexists. split; [vm_compute; reflexivity|].
  exact (lambda_lnREE_rows Sample.env
           [{| index_size := 2;
               columns := [("La", [Fin 1; NaN]); ("Ce", [Fin 1; Fin 1])] |}]
           0%nat
           {| index_size := 2;
              columns := [("La", [Fin 1; NaN]); ("Ce", [Fin 1; Fin 1])] |}
           ReeNone ["Pm"; "Eu"] None 2 (Some []) "ppm" _
           eq_refl eq_refl).
Defined.

(** X20. A table in which every row has a null under one of the selected
    elements -- the table without rows among them -- is not fitted: once
    the radii and the reference values are resolved, [lambda_lnREE] raises
    the [ValueError] of [np.apply_along_axis]. *)
Theorem lambda_lnREE_needs_a_complete_row (E : Env) (df : DataFrame)
  (norm_to : ree_norm) (exclude : list string) (params : option (list (list Q)))
  (degree : nat) (append : option (list string)) (scale : string)
  (radii : list Q) (abund : option (list fval)) :
  get_ionic_radii E (select_ree E df exclude) = Ok radii ->
  norm_abundances E norm_to (select_ree E df exclude) scale = Ok abund ->
  (forall i, (i < index_size df)%nat ->
     exists c col, In c (select_ree E df exclude) /\ get_col df c = Some col /\
                   nth i col NaN = NaN) ->
  lambda_lnREE_table E df norm_to exclude params degree append scale
  = Err (ValueError "Cannot apply_along_axis when any iteration dimensions are 0").
Proof.
  intros Hradii Habund Hrows. unfold lambda_lnREE_table.
  rewrite Hradii. cbn [rbind]. rewrite selected_table. cbn [rbind].
  rewrite Habund. cbn [rbind].
  unfold rows_of. cbn [index_size].
  rewrite no_row_to_fit.
  - destruct abund; reflexivity.
  - intros x Hx. apply in_map_iff in Hx as [i [<- Hi]].
    apply in_seq in Hi. destruct (Hrows i ltac:(lia)) as [c [col [Hin [Hcol Hnan]]]].
    apply (selected_row_null E df exclude i c col Hin Hcol Hnan).
Qed.

Lemma lambda_lnREE_needs_a_complete_row_witness :
  lambda_lnREE_table Sample.env
    {| index_size := 2; columns := [("La", [Fin 1; NaN]); ("Ce", [NaN; Fin 1])] |}
    ReeNone ["Pm"; "Eu"] None 4 None "ppm"
  = Err (ValueError "Cannot apply_along_axis when any iteration dimensions are 0").
Proof.
  apply (lambda_lnREE_needs_a_complete_row Sample.env
           {| index_size := 2; columns := [("La", [Fin 1; NaN]); ("Ce", [NaN; Fin 1])] |}
           ReeNone ["Pm"; "Eu"] None 4 None "ppm" [1160 # 1000; 1143 # 1000] None);
    [reflexivity | reflexivity |].
  intros [|[|i]] Hi.
  - exists "Ce", [NaN; Fin 1]. repeat split. right. left. reflexivity.
  - exists "La", [Fin 1; NaN]. repeat split. left. reflexivity.
  - simpl in Hi. lia.
Defined.

(** X21. An array of reference values must have one value per selected
    element: when its length differs and the radii are resolved,
    [lambda_lnREE] raises the [AssertionError] of its length check. *)
Theorem lambda_lnREE_norm_length (E : Env) (df : DataFrame) (l : list fval)
  (exclude : list string) (params : option (list (list Q))) (degree : nat)
  (append : option (list string)) (scale : string) (radii : list Q) :
  get_ionic_radii E (select_ree E df exclude) = Ok radii ->
  length l <> length (select_ree E df exclude) ->
  lambda_lnREE_table E df (ReeSeq l) exclude params degree append scale
  = Err AssertionError.
Proof.
  intros Hradii Hlen. unfold lambda_lnREE_table.
  rewrite Hradii. cbn [rbind]. rewrite selected_table. cbn [rbind].
  unfold norm_abundances.
  destruct (Nat.eqb_spec (length l) (length (select_ree E df exclude)));
    [contradiction|reflexivity].
Qed.

Lemma lambda_lnREE_norm_length_witness :
  lambda_lnREE_table Sample.env
    {| index_size := 1; columns := [("La", [Fin 1]); ("Ce", [Fin 1])] |}
    (ReeSeq [Fin 1; Fin 1; Fin 1]) ["Pm"; "Eu"] None 4 None "ppm"
  = Err AssertionError.
Proof.
  apply (lambda_lnREE_norm_length Sample.env
           {| index_size := 1; columns := [("La", [Fin 1]); ("Ce", [Fin 1])] |}
           [Fin 1; Fin 1; Fin 1] ["Pm"; "Eu"] None 4 None "ppm"
           [1160 # 1000; 1143 # 1000]);
    [reflexivity | vm_compute; lia].
Defined.

(** X22. The names of the columns [lambda_lnREE] returns: one coefficient
    column per degree, named by the Greek letter lambda and the order from
    0, the degree being the length of [params] when [params] is given
    (the argument [degree] is then ignored); and after them
    [lambda_poly_func] when ["function"] is in [append]. *)
Theorem lambda_lnREE_column_names (E : Env) (df : DataFrame) (norm_to : ree_norm)
  (exclude : list string) (params : option (list (list Q))) (degree : nat)
  (append : option (list string)) (scale : string) (out : ObjFrame) :
  lambda_lnREE_table E df norm_to exclude params degree append scale = Ok out ->
  map fst (o_columns out)
  = map label (seq 0 (match params with None => degree | Some p => length p end))
    ++ (if match append with Some a => mem "function" a | None => false end
        then ["lambda_poly_func"] else []).
Proof.
  unfold lambda_lnREE_table.
  destruct (get_ionic_radii E _) as [radii|e]; cbn [rbind]; [|discriminate].
  destruct (loc_cols df _) as [sub|e]; cbn [rbind]; [|discriminate].
  destruct (norm_abundances E norm_to _ scale) as [abund|e]; cbn [rbind]; [|discriminate].
  destruct (apply_along_axis _ _) as [fits|e]; cbn [rbind]; [|discriminate].
  destruct (negb _); [discriminate|].
  assert (Hnames : forall cols : list (string * list obj),
            map fst (map (fun kv => (fst kv, map to_numeric (snd kv))) cols)
            = map fst cols).
  { intros cols. rewrite map_map. reflexivity. }
  destruct append as [a|]; [destruct (mem "function" a)|].
  - destruct (apply_along_axis _ _) as [fs|e]; cbn [rbind]; [|discriminate].
    intros H. injection H as <-. cbn [o_columns].
    rewrite Hnames, map_app, columns_of_rows_names. reflexivity.
  - cbn [rbind]. intros H. injection H as <-. cbn [o_columns].
    rewrite Hnames, columns_of_rows_names, app_nil_r. reflexivity.
  - cbn [rbind]. intros H. injection H as <-. cbn [o_columns].
    rewrite Hnames, columns_of_rows_names, app_nil_r. reflexivity.
Qed.

Lemma lambda_lnREE_column_names_witness :
  exists out,
    lambda_lnREE_table Sample.env
      {| index_size := 2; columns := [("La", [Fin 1; NaN]); ("Ce", [Fin 1; Fin 1])] |}
      ReeNone ["Pm"; "Eu"] (Some [[]; []; []]) 7 (Some ["function"]) "ppm" = Ok out /\
    map fst (o_columns out)
    = map label (seq 0 3) ++ ["lambda_poly_func"].
Proof.
  eexists. split; [vm_compute; reflexivity|].
  apply (lambda_lnREE_column_names Sample.env
           {| index_size := 2;
              columns := [("La", [Fin 1; NaN]); ("Ce", [Fin 1; Fin 1])] |}
           ReeNone ["Pm"; "Eu"] (Some [[]; []; []]) 7 (Some ["function"]) "ppm").
  vm_compute. reflexivity.
Defined.
